(** * RAG chatbot front end: streaming client, chat state, upload and
      document list

    A shallow embedding of the TypeScript client of the RAG chatbot:
    - [frontend/src/services/api.ts]: [apiRequest], [ingestDocument],
      [ingestFile], [askQuestion], [processLines], [getDocuments];
    - the [useChat] hook ([sendMessage]);
    - the [DocumentUpload] component ([handleUpload]);
    - the [App] component ([fetchDocs]).

    JavaScript strings are sequences of UTF-16 code units, modelled as
    [list N].  Asynchronous code is modelled sequentially (every [await]
    is a sequencing point) in a state-and-exception monad whose state holds
    the component's React state, the console and the log of requests sent
    with [fetch].  What the network answers is a parameter, and so is
    [JSON.parse]; the values it returns are modelled by [JSON.t]. *)

From Stdlib Require Import ZArith NArith Ascii String DecimalString.
From stdpp Require Import base option list gmap.

Set Default Proof Using "Type".

(** ** JavaScript strings *)

Module JS.

Definition jstring := list N.

(** A string literal: the code units of an ASCII text. *)
Fixpoint js (s : string) : jstring :=
  match s with
  | EmptyString => []
  | String a s' => N_of_ascii a :: js s'
  end.
#[global] Arguments js s%_string.

(** The line feed of ['\n']. *)
Definition LF : N := 10%N.

(** A string is truthy exactly when it is not empty. *)
Definition truthy (s : jstring) : bool :=
  match s with [] => false | _ :: _ => true end.

(** ECMAScript [WhiteSpace] and [LineTerminator] code points, the ones
    [String.prototype.trim] strips. *)
Definition is_white_space (c : N) : bool :=
  bool_decide (c ∈ [9; 10; 11; 12; 13; 32; 160; 5760; 8232; 8233; 8239;
                    8287; 12288; 65279]%N)
  || ((8192 <=? c)%N && (c <=? 8202)%N).

Fixpoint trimStart (s : jstring) : jstring :=
  match s with
  | c :: s' => if is_white_space c then trimStart s' else s
  | [] => []
  end.

Definition trimEnd (s : jstring) : jstring := reverse (trimStart (reverse s)).

Definition trim (s : jstring) : jstring := trimEnd (trimStart s).

(** [s.startsWith(prefix)] *)
Fixpoint startsWith (s prefix : jstring) : bool :=
  match prefix, s with
  | [], _ => true
  | p :: prefix', c :: s' => (c =? p)%N && startsWith s' prefix'
  | _ :: _, [] => false
  end.

(** The clamping of a relative index that [slice] applies to both of
    its arguments. *)
Definition relative_index (len i : Z) : Z :=
  if (i <? 0)%Z then Z.max (len + i) 0 else Z.min i len.

(** [s.slice(start, end)]; [end_ = None] is the call with one argument. *)
Definition slice (s : jstring) (start : Z) (end_ : option Z) : jstring :=
  let len := Z.of_nat (length s) in
  let from := relative_index len start in
  let to := match end_ with
            | None => len
            | Some e => relative_index len e
            end in
  take (Z.to_nat (to - from)) (drop (Z.to_nat from) s).

(** [s.lastIndexOf(c)] for a search string of one code unit: the index
    of its last occurrence, [-1] when there is none. *)
Fixpoint lastIndexOf_from (s : jstring) (c : N) (i found : Z) : Z :=
  match s with
  | [] => found
  | x :: s' => lastIndexOf_from s' c (i + 1) (if (x =? c)%N then i else found)
  end.

Definition lastIndexOf (s : jstring) (c : N) : Z :=
  lastIndexOf_from s c 0 (-1).

(** [s.split(sep)] for a separator of one code unit.  The result is
    never empty: [''.split('\n')] is [['']]. *)
Fixpoint split (s : jstring) (sep : N) : list jstring :=
  match s with
  | [] => [[]]
  | c :: s' =>
      if (c =? sep)%N then [] :: split s' sep
      else match split s' sep with
           | line :: lines => (c :: line) :: lines
           | [] => [[c]]
           end
  end.

(** The decimal text of a non-negative integer.  A template literal prints
    a number that way when the number is an integer below [2^53]: the
    status of a response, the length of an array, and the counts of chunks
    that the properties about totals bound by [2^53]. *)
Definition of_number (n : N) : jstring :=
  js (NilZero.string_of_uint (N.to_uint n)).

(** [[...new Set(xs)]]: a [Set] keeps its members in insertion order and
    [add] ignores a value that is already a member. *)
Definition Set_add {A} `{EqDecision A} (s : list A) (x : A) : list A :=
  if decide (x ∈ s) then s else s ++ [x].

Definition Set_of {A} `{EqDecision A} (xs : list A) : list A :=
  foldl Set_add [] xs.

End JS.
Import JS.

(** ** Data of [types] *)

Module StreamChunk.
(** [{ sources?: string[]; answer?: string; error?: string }] *)
Record t := Build {
  sources : option (list jstring);
  answer : option jstring;
  error : option jstring
}.
End StreamChunk.

Inductive role := user | assistant.

Module Message.
(** [timestamp] is a [Date], kept as its time value. *)
Record t := Build {
  id : jstring;
  content : jstring;
  role : role;
  sources : option (list jstring);
  timestamp : N
}.
End Message.

Module ChatState.
Record t := Build {
  messages : list Message.t;
  isLoading : bool;
  error : option jstring
}.
End ChatState.

Module IngestResponse.
(** [chunks_processed] is a count; counts below [2^53] are exact in a
    JavaScript number and are modelled in [N]. *)
Record t := Build {
  status : jstring;
  chunks_processed : N;
  source : jstring
}.
End IngestResponse.

Module DocumentInfo.
Record t := Build {
  id : N;
  source : jstring;
  content_preview : jstring
}.
End DocumentInfo.

Module DocumentsResponse.
Record t := Build {
  total : N;
  documents : list DocumentInfo.t
}.
End DocumentsResponse.

Module File.
Record t := Build {
  name : jstring;
  bytes : list N
}.
End File.

#[global] Instance role_eq_dec : EqDecision role.
Proof. solve_decision. Defined.
#[global] Instance StreamChunk_eq_dec : EqDecision StreamChunk.t.
Proof. solve_decision. Defined.
#[global] Instance Message_eq_dec : EqDecision Message.t.
Proof. solve_decision. Defined.
#[global] Instance DocumentInfo_eq_dec : EqDecision DocumentInfo.t.
Proof. solve_decision. Defined.

(** ** Exceptions, the platform and the monad of effects *)

(** Every value thrown in this code is an [Error] object (the code's own
    [new Error(...)], the rejections of [fetch] and of the stream reader,
    the [SyntaxError] of [JSON.parse], the [TypeError] of the engine); the
    callbacks are typed that way. *)
Inductive exn := Error (message : jstring).

(** [error.message] *)
Definition error_message (e : exn) : jstring := let 'Error m := e in m.

Inductive result (A : Type) := Returns (a : A) | Throws (e : exn).
Arguments Returns {A} a.
Arguments Throws {A} e.

(** A [TypeError] is an [Error] object whose message the engine words;
    the messages below are in V8's wording. *)
Definition TypeError (message : jstring) : exn := Error message.

(** ** JSON values *)

Module JSON.

(** A value as [JSON.parse] and [response.json()] return it.  A number is
    kept as the text [String(x)] gives for it, which is all this code
    observes of a number: whether it is zero, and its text. *)
#[warnings="-register-all"]
Inductive t :=
| Null
| Bool (b : bool)
| Number (shown : jstring)
| String (s : jstring)
| Array (items : list t)
| Object (members : list (jstring * t)).

(** The own property [key] among the members of an object, each key
    being listed once; [None] is [undefined]. *)
Fixpoint member (key : jstring) (members : list (jstring * t)) : option t :=
  match members with
  | [] => None
  | (k, v) :: members' => if decide (k = key) then Some v else member key members'
  end.

(** [v.key] for a key that no built-in prototype defines, as [detail]:
    reading a member of [null] throws, a number, a string, a boolean and
    an array have no such member. *)
Definition get (v : t) (key : jstring) : result (option t) :=
  match v with
  | Null =>
      Throws (TypeError (js "Cannot read properties of null (reading '"
                           ++ key ++ js "')"))
  | Object members => Returns (member key members)
  | _ => Returns None
  end.

(** [ToBoolean]: [null], [false], zero and the empty string are falsy,
    every array and every object is truthy. *)
Definition truthy (v : t) : bool :=
  match v with
  | Null => false
  | Bool b => b
  | Number shown => negb (bool_decide (shown = js "0"))
  | String s => JS.truthy s
  | Array _ | Object _ => true
  end.

(** The value is an object in the sense of JSON: [{ ... }]. *)
Definition is_object (v : t) : bool :=
  match v with Object _ => true | _ => false end.

(** [ToString], as [new Error(v)] applies it.  An array is joined with
    commas, a [null] element giving the empty text; an object gives
    [[object Object]] through [Object.prototype.toString], unless a member
    of its own named [toString] hides that method, and then the conversion
    throws, no member of a JSON value being callable. *)
Fixpoint to_string (v : t) : result jstring :=
  match v with
  | Null => Returns (js "null")
  | Bool b => Returns (if b then js "true" else js "false")
  | Number shown => Returns shown
  | String s => Returns s
  | Array items =>
      (fix join (items : list t) : result jstring :=
         match items with
         | [] => Returns []
         | item :: items' =>
             match match item with
                   | Null => Returns []
                   | _ => to_string item
                   end with
             | Throws e => Throws e
             | Returns first =>
                 match items' with
                 | [] => Returns first
                 | _ :: _ =>
                     match join items' with
                     | Returns rest => Returns (first ++ js "," ++ rest)
                     | Throws e => Throws e
                     end
                 end
             end
         end) items
  | Object members =>
      match member (js "toString") members with
      | Some _ => Throws (TypeError (js "Cannot convert object to primitive value"))
      | None => Returns (js "[object Object]")
      end
  end.

End JSON.

(** The body of an [/ask] response as the reader delivers it: the decoded
    text of each read ([decoder.decode(value, { stream: true })] of the
    bytes of that read), then either [done] or a rejected [read()]. *)
Inductive stream_end := EndOfStream | ReadRejects (e : exn).

Record stream := Stream { reads : list jstring; ending : stream_end }.

(** A response, in the two shapes the code tells apart with [response.ok]:
    [json] is what [response.json()] gives at the type the caller expects,
    [errorData] what it gives on the failure path, where the code reads
    the member [detail] of whatever value the body holds. *)
Inductive response (T : Type) :=
| Success (json : result T) (body : option stream)
| Failure (status : N) (errorData : result JSON.t).
Arguments Success {T} json body.
Arguments Failure {T} status errorData.

Inductive fetch_outcome (T : Type) :=
| Rejects (e : exn)
| Resolves (r : response T).
Arguments Rejects {T} e.
Arguments Resolves {T} r.

(** The requests the client sends. *)
Inductive request :=
| PostAsk (question : jstring)
| PostIngest (text source : jstring)
| PostIngestFile (file : File.t) (source : option jstring)
| GetDocuments.

(** The network: what each [fetch] answers, given the requests sent
    before it. *)
Record network := Network {
  net_ask : list request → jstring → fetch_outcome unit;
  net_ingest : list request → jstring → jstring → fetch_outcome IngestResponse.t;
  net_ingest_file :
    list request → File.t → option jstring → fetch_outcome IngestResponse.t;
  net_documents : list request → fetch_outcome DocumentsResponse.t
}.

Inductive log_arg := Text (s : jstring) | Thrown (e : exn).
Inductive log_entry :=
| console_warn (args : list log_arg)
| console_error (args : list log_arg).

Record world (S : Type) := World {
  ui : S;
  console : list log_entry;
  requests : list request
}.
Arguments World {S} ui console requests.
Arguments ui {S} w.
Arguments console {S} w.
Arguments requests {S} w.

Definition M (S A : Type) : Type := world S → world S * result A.

Section Monad.
Context {S : Type}.

Definition ret {A} (a : A) : M S A := fun w => (w, Returns a).

Definition bind {A B} (m : M S A) (k : A → M S B) : M S B :=
  fun w =>
    match m w with
    | (w', Returns a) => k a w'
    | (w', Throws e) => (w', Throws e)
    end.

Definition throw {A} (e : exn) : M S A := fun w => (w, Throws e).

(** [try { m } catch (e) { handler }] *)
Definition try_catch {A} (m : M S A) (handler : exn → M S A) : M S A :=
  fun w =>
    match m w with
    | (w', Returns a) => (w', Returns a)
    | (w', Throws e) => handler e w'
    end.

(** [try { m } finally { cleanup }] *)
Definition try_finally {A} (m : M S A) (cleanup : M S unit) : M S A :=
  fun w =>
    match m w with
    | (w', r) =>
        match cleanup w' with
        | (w'', Returns _) => (w'', r)
        | (w'', Throws e) => (w'', Throws e)
        end
    end.

(** A React state setter: [setState(updater)]. *)
Definition setState (updater : S → S) : M S unit :=
  fun w => (World (updater (ui w)) (console w) (requests w), Returns tt).

(** The state the current render closed over. *)
Definition getState : M S S := fun w => (w, Returns (ui w)).

Definition log (entry : log_entry) : M S unit :=
  fun w => (World (ui w) (console w ++ [entry]) (requests w), Returns tt).

(** A call that returns or throws without touching the state: an
    awaited promise that has settled, or [JSON.parse]. *)
Definition of_result {A} (r : result A) : M S A :=
  fun w => (w, r).

(** [fetch]: the request goes out and the network answers. *)
Definition fetch {T} (req : request)
    (answer : list request → fetch_outcome T) : M S (response T) :=
  fun w =>
    let w' := World (ui w) (console w) (requests w ++ [req]) in
    match answer (requests w) with
    | Rejects e => (w', Throws e)
    | Resolves r => (w', Returns r)
    end.

(** [for (const x of xs) { body }] *)
Fixpoint for_of {A} (xs : list A) (body : A → M S unit) : M S unit :=
  match xs with
  | [] => ret tt
  | x :: xs' => bind (body x) (fun _ => for_of xs' body)
  end.

End Monad.

Notation "'let*' x ':=' m 'in' k" := (bind m (fun x => k))
  (at level 10, x name, m at level 100, k at level 200).
Notation "m >> k" := (bind m (fun _ => k))
  (at level 90, right associativity).

(** ** [services/api.ts] *)

Section Api.
Context {S : Type}.
Variable net : network.

(** [JSON.parse(s) as StreamChunk]: the platform's parser, which returns
    the parsed value or throws a [SyntaxError].  The cast checks nothing
    and nothing in this file looks into the value, so the type [C] of the
    parsed values is left open: [JSON.t] for the value as parsed,
    [StreamChunk.t] for a value read at its declared type. *)
Context {C : Type}.
Variable JSON_parse : jstring → result C.

(** [new Error(`HTTP error! status: ${response.status}`)] *)
Definition http_error (status : N) : exn :=
  Error (js "HTTP error! status: " ++ of_number status).

(** What [throw new Error(errorData.detail || `HTTP error! status: ...`)]
    throws, where [errorData = await response.json().catch(() => ({}))]:
    the [TypeError] of reading [detail] on [null] or of converting the
    detail to a string, or else the new [Error]. *)
Definition failure_error (status : N) (errorData : result JSON.t) : exn :=
  let errorData := match errorData with
                   | Returns v => v
                   | Throws _ => JSON.Object []
                   end in
  match JSON.get errorData (js "detail") with
  | Throws e => e
  | Returns (Some detail) =>
      if JSON.truthy detail then
        match JSON.to_string detail with
        | Returns message => Error message
        | Throws e => e
        end
      else http_error status
  | Returns None => http_error status
  end.

Definition apiRequest {T} (endpoint : jstring) (req : request)
    (answer : list request → fetch_outcome T) : M S T :=
  try_catch
    (let* response := fetch req answer in
     match response with
     | Failure status errorData => throw (failure_error status errorData)
     | Success json _ => of_result json
     end)
    (fun error =>
       log (console_error
              [Text (js "API Error (" ++ endpoint ++ js "):"); Thrown error]) >>
       throw error).

Definition ingestDocument (text source : jstring) : M S IngestResponse.t :=
  apiRequest (js "/ingest") (PostIngest text source)
    (fun sent => net_ingest net sent text source).

Definition ingestFile (file : File.t) (source : option jstring)
    : M S IngestResponse.t :=
  let formSource := match source with
                    | Some s => if truthy s then Some s else None
                    | None => None
                    end in
  let* response := fetch (PostIngestFile file formSource)
                (fun sent => net_ingest_file net sent file formSource) in
  match response with
  | Failure status errorData => throw (failure_error status errorData)
  | Success json _ => of_result json
  end.

Definition getDocuments : M S DocumentsResponse.t :=
  apiRequest (js "/documents") GetDocuments (net_documents net).

(** The marker that opens an event line. *)
Definition DATA : jstring := js "data: ".

Definition processLines (text : jstring)
    (onChunk : C → M S unit) : M S unit :=
  let lines := split text LF in
  for_of lines (fun line =>
    if negb (truthy (trim line)) || negb (startsWith line DATA) then
      ret tt
    else
      try_catch
        (let jsonStr := trim (slice line 6 None) in
         if truthy jsonStr then
           let* data := of_result (JSON_parse jsonStr) in
           onChunk data
         else ret tt)
        (fun e =>
           log (console_warn
                  [Text (js "Failed to parse chunk:"); Text line; Thrown e]))).

(** The [while (true)] loop of [askQuestion], one iteration per read. *)
Fixpoint read_loop (onChunk : C → M S unit) (onComplete : M S unit)
    (pending : list jstring) (fin : stream_end) (buffer : jstring) : M S unit :=
  match pending with
  | [] =>
      match fin with
      | EndOfStream =>
          (if truthy buffer then processLines buffer onChunk else ret tt) >>
          onComplete
      | ReadRejects e => throw e
      end
  | value :: pending' =>
      let buffer := buffer ++ value in
      let lastNewlineIndex := lastIndexOf buffer LF in
      if bool_decide (lastNewlineIndex ≠ (-1)%Z) then
        let completeLines := slice buffer 0 (Some lastNewlineIndex) in
        let buffer := slice buffer (lastNewlineIndex + 1) None in
        processLines completeLines onChunk >>
        read_loop onChunk onComplete pending' fin buffer
      else
        read_loop onChunk onComplete pending' fin buffer
  end.

Definition askQuestion (question : jstring)
    (onChunk : C → M S unit) (onComplete : M S unit)
    (onError : exn → M S unit) : M S unit :=
  try_catch
    (let* response := fetch (PostAsk question)
                   (fun sent => net_ask net sent question) in
     match response with
     | Failure status _ => throw (http_error status)
     | Success _ None => throw (Error (js "No response body"))
     | Success _ (Some body) =>
         read_loop onChunk onComplete (reads body) (ending body) []
     end)
    onError.

End Api.

(** ** The [useChat] hook *)

Module Fresh.
(** What [generateId()] and [new Date()] return for the two messages of
    one [sendMessage]: they read the clock and the random generator, so
    their results are inputs here. *)
Record t := Build {
  userMsgId : jstring;
  userTime : N;
  assistantMsgId : jstring;
  assistantTime : N
}.
End Fresh.

Section UseChat.
Variable net : network.

(** The hook reads the members [sources] and [answer] of a chunk at the
    types [StreamChunk] declares, on the word of the cast in
    [processLines].  It is modelled for the payloads that are such
    objects: here [JSON.parse] returns the chunk at its declared type. *)
Variable JSON_parse : jstring → result StreamChunk.t.

(** The updater of the first [setState] of [sendMessage]. *)
Definition start_update (question : jstring) (fresh : Fresh.t)
    (prev : ChatState.t) : ChatState.t :=
  let userMessage :=
    Message.Build (Fresh.userMsgId fresh) question user None
      (Fresh.userTime fresh) in
  let assistantMessage :=
    Message.Build (Fresh.assistantMsgId fresh) [] assistant (Some [])
      (Fresh.assistantTime fresh) in
  ChatState.Build (ChatState.messages prev ++ [userMessage; assistantMessage])
    true None.

(** What the [onChunk] callback does to one message with the
    assistant's id. *)
Definition update_message (chunk : StreamChunk.t) (msg : Message.t) : Message.t :=
  let updatedMsg := msg in
  let updatedMsg :=
    match StreamChunk.sources chunk with
    | Some chunk_sources =>
        let appended := default [] (Message.sources updatedMsg) ++ chunk_sources in
        Message.Build (Message.id updatedMsg) (Message.content updatedMsg)
          (Message.role updatedMsg) (Some (Set_of appended))
          (Message.timestamp updatedMsg)
    | None => updatedMsg
    end in
  match StreamChunk.answer chunk with
  | Some chunk_answer =>
      if truthy chunk_answer then
        Message.Build (Message.id updatedMsg)
          (Message.content updatedMsg ++ chunk_answer)
          (Message.role updatedMsg) (Message.sources updatedMsg)
          (Message.timestamp updatedMsg)
      else updatedMsg
  | None => updatedMsg
  end.

(** The updater of the [setState] in the [onChunk] callback. *)
Definition chunk_update (assistantMsgId : jstring) (chunk : StreamChunk.t)
    (prev : ChatState.t) : ChatState.t :=
  let newMessages :=
    map (fun msg =>
           if bool_decide (Message.id msg = assistantMsgId)
           then update_message chunk msg
           else msg)
        (ChatState.messages prev) in
  ChatState.Build newMessages (ChatState.isLoading prev) (ChatState.error prev).

(** The updater of the [setState] in the [onComplete] callback. *)
Definition complete_update (prev : ChatState.t) : ChatState.t :=
  ChatState.Build (ChatState.messages prev) false (ChatState.error prev).

(** The updater of the [setState] in the [onError] callback. *)
Definition error_update (error : exn) (prev : ChatState.t) : ChatState.t :=
  ChatState.Build (ChatState.messages prev) false (Some (error_message error)).

(** The updater of the [setState] in the [catch] of [sendMessage]. *)
Definition failed_update (prev : ChatState.t) : ChatState.t :=
  ChatState.Build (ChatState.messages prev) false
    (Some (js "Failed to send message")).

Definition sendMessage (question : jstring) (fresh : Fresh.t)
    : M ChatState.t unit :=
  if negb (truthy (trim question)) then ret tt
  else
    let assistantMsgId := Fresh.assistantMsgId fresh in
    setState (start_update question fresh) >>
    try_catch
      (askQuestion net JSON_parse question
         (fun chunk => setState (chunk_update assistantMsgId chunk))
         (setState complete_update)
         (fun error =>
            log (console_error [Text (js "Chat error:"); Thrown error]) >>
            setState (error_update error)))
      (fun error =>
         log (console_error [Text (js "Failed to send message:"); Thrown error]) >>
         setState failed_update).

(** The chat state after the [onChunk] callback has run for each event
    of a sequence, in order. *)
Definition process_events (assistantMsgId : jstring)
    (events : list StreamChunk.t) (st : ChatState.t) : ChatState.t :=
  foldl (fun st chunk => chunk_update assistantMsgId chunk st) st events.

End UseChat.

(** ** The [DocumentUpload] component *)

Inductive tab := text_tab | file_tab.
Inductive message_type := success | error.

Module UploadState.
(** One field per [useState] of the component; [fileInput] is the value
    of the element behind [fileInputRef], [None] when the ref is empty. *)
Record t := Build {
  activeTab : tab;
  text : jstring;
  source : jstring;
  files : list File.t;
  isUploading : bool;
  message : option (message_type * jstring);
  fileInput : option jstring
}.
End UploadState.

Section DocumentUpload.
Import UploadState.
Variable net : network.

(** The [onUploadSuccess] prop, when the parent passes one; it is called
    as its type [() => void] says, inside the [try]. *)
Variable onUploadSuccess : option (M UploadState.t unit).

Definition setText (v : jstring) : M UploadState.t unit :=
  setState (fun st => Build (activeTab st) v (source st) (files st)
                        (isUploading st) (message st) (fileInput st)).
Definition setSource (v : jstring) : M UploadState.t unit :=
  setState (fun st => Build (activeTab st) (text st) v (files st)
                        (isUploading st) (message st) (fileInput st)).
Definition setFiles (v : list File.t) : M UploadState.t unit :=
  setState (fun st => Build (activeTab st) (text st) (source st) v
                        (isUploading st) (message st) (fileInput st)).
Definition setIsUploading (v : bool) : M UploadState.t unit :=
  setState (fun st => Build (activeTab st) (text st) (source st) (files st)
                        v (message st) (fileInput st)).
Definition setMessage (v : option (message_type * jstring))
    : M UploadState.t unit :=
  setState (fun st => Build (activeTab st) (text st) (source st) (files st)
                        (isUploading st) v (fileInput st)).
(** [if (fileInputRef.current) fileInputRef.current.value = ''] *)
Definition clearFileInput : M UploadState.t unit :=
  setState (fun st => Build (activeTab st) (text st) (source st) (files st)
                        (isUploading st) (message st)
                        (match fileInput st with
                         | Some _ => Some []
                         | None => None
                         end)).

(** The [for (const file of files)] loop with its running [totalChunks].
    The counts are added in [N]: that is the sum of the code as long as it
    stays below [2^53], which the properties about the total assume. *)
Fixpoint ingest_files (files : list File.t) (source : jstring)
    (totalChunks : N) : M UploadState.t N :=
  match files with
  | [] => ret totalChunks
  | file :: files' =>
      let* response := ingestFile net file
                    (Some (if truthy source then source else File.name file)) in
      ingest_files files' source (totalChunks + IngestResponse.chunks_processed response)
  end.

Definition text_success (response : IngestResponse.t) : jstring :=
  js "Successfully processed " ++ of_number (IngestResponse.chunks_processed response)
    ++ js " chunks from " ++ IngestResponse.source response.

Definition files_success (totalChunks : N) (count : nat) : jstring :=
  js "Successfully processed " ++ of_number totalChunks
    ++ js " chunks from " ++ of_number (N.of_nat count) ++ js " file(s)".

Definition handleUpload : M UploadState.t unit :=
  let* st := getState in
  let activeTab := activeTab st in
  let text := text st in
  let source := source st in
  let files := files st in
  let upload :=
    setIsUploading true >>
    setMessage None >>
    try_finally
      (try_catch
         ((match activeTab with
           | text_tab =>
               let* response := ingestDocument net text source in
               setMessage (Some (success, text_success response)) >>
               setText [] >>
               setSource []
           | file_tab =>
               let* totalChunks := ingest_files files source 0 in
               setMessage (Some (success, files_success totalChunks (length files))) >>
               setFiles [] >>
               clearFileInput
           end) >>
          match onUploadSuccess with
          | Some callback => callback
          | None => ret tt
          end)
         (fun err =>
            log (console_error [Text (js "Upload error:"); Thrown err]) >>
            (* [error instanceof Error ? error.message : ...]: every [exn]
               is an [Error] *)
            setMessage (Some (error, error_message err))))
      (setIsUploading false) in
  match activeTab with
  | text_tab =>
      if negb (truthy (trim text)) || negb (truthy (trim source)) then
        setMessage (Some (error, js "Please provide both text and source name"))
      else upload
  | file_tab =>
      if bool_decide (length files = 0) then
        setMessage (Some (error, js "Please select at least one file to upload"))
      else upload
  end.

End DocumentUpload.

(** ** The [App] component *)

Inductive view := chat_view | upload_view.

Module AppState.
Record t := Build {
  view : view;
  documents : list DocumentInfo.t;
  isDeleting : option jstring
}.
End AppState.

Section App.
Variable net : network.

Definition setDocuments (v : list DocumentInfo.t) : M AppState.t unit :=
  setState (fun st => AppState.Build (AppState.view st) v (AppState.isDeleting st)).

(** The [for (const doc of data.documents)] loop of [fetchDocs], with
    its two locals [uniqueDocs] and [seenSources]. *)
Fixpoint unique_docs (docs uniqueDocs : list DocumentInfo.t)
    (seenSources : gset jstring) : list DocumentInfo.t :=
  match docs with
  | [] => uniqueDocs
  | doc :: docs' =>
      if decide (DocumentInfo.source doc ∈ seenSources) then
        unique_docs docs' uniqueDocs seenSources
      else
        unique_docs docs' (uniqueDocs ++ [doc])
          (seenSources ∪ {[DocumentInfo.source doc]})
  end.

Definition fetchDocs : M AppState.t unit :=
  try_catch
    (let* data := getDocuments net in
     let uniqueDocs := unique_docs (DocumentsResponse.documents data) [] ∅ in
     setDocuments uniqueDocs)
    (fun error =>
       log (console_error [Text (js "Failed to fetch documents:"); Thrown error])).

End App.

(** ** Notions used to state the properties *)

(** The text before the last line feed of a text, when it has one. *)
Fixpoint before_last_LF (s : jstring) : option jstring :=
  match s with
  | [] => None
  | c :: s' =>
      match before_last_LF s' with
      | Some p => Some (c :: p)
      | None => if (c =? LF)%N then Some [] else None
      end
  end.

Section Events.
Context {C : Type}.
Variable JSON_parse : jstring → result C.

(** The event a line stands for: the line begins with the marker
    ['data: '] and what follows it, trimmed, is not empty and parses. *)
Definition line_event (line : jstring) : option C :=
  if startsWith line DATA then
    let payload := trim (drop 6 line) in
    if truthy payload then
      match JSON_parse payload with
      | Returns data => Some data
      | Throws _ => None
      end
    else None
  else None.

(** The events of a text, line by line. *)
Definition parsed_events (text : jstring) : list C :=
  omap line_event (split text LF).

End Events.

(** Callbacks that record their own invocations, in order. *)
Inductive call :=
| onChunk_call (chunk : StreamChunk.t)
| onComplete_call
| onError_call (e : exn).

Definition record_call (c : call) : M (list call) unit :=
  setState (fun calls => calls ++ [c]).

Definition record_chunk (chunk : StreamChunk.t) : M (list call) unit :=
  record_call (onChunk_call chunk).

(** A callback that records the values it is called with, in order. *)
Definition record_value {A} (a : A) : M (list A) unit :=
  setState (fun values => values ++ [a]).

(** The answer text an event carries. *)
Definition answer_of (chunk : StreamChunk.t) : jstring :=
  default [] (StreamChunk.answer chunk).

(** The source values an event carries. *)
Definition sources_of (chunk : StreamChunk.t) : list jstring :=
  default [] (StreamChunk.sources chunk).

(** [l] lists the members of [all], each once: every entry of [l] is the
    first member of [all] with its key, every key of [all] has an entry,
    and the entries stand in the order in which their keys first occur in
    [all]. *)
Definition first_seen {A K} (key : A → K) (all l : list A) : Prop :=
  NoDup (key <$> l)
  ∧ (∀ x, x ∈ all → ∃ y, y ∈ l ∧ key y = key x)
  ∧ (∀ y, y ∈ l →
       ∃ pre post, all = pre ++ y :: post ∧ ∀ x, x ∈ pre → key x ≠ key y)
  ∧ (∀ i j x y, i < j → l !! i = Some x → l !! j = Some y →
       ∃ pre post, all = pre ++ y :: post
                   ∧ (∀ z, z ∈ pre → key z ≠ key y)
                   ∧ ∃ z, z ∈ pre ∧ key z = key x).

(** One message after the [onChunk] updates of a sequence of events, in
    order. *)
Definition after_events (m : Message.t) (events : list StreamChunk.t) : Message.t :=
  foldl (λ msg chunk, update_message chunk msg) m events.

(** A text is blank when it is empty or holds white space only. *)
Definition blank (s : jstring) : Prop := Forall (λ c, is_white_space c = true) s.

(** [ingestFile] appends the source to the form only when it is truthy. *)
Definition form_source (source : jstring) (file : File.t) : option jstring :=
  let chosen := if truthy source then source else File.name file in
  if truthy chosen then Some chosen else None.

(** The request of the [ingestFile] call that [handleUpload] makes for a
    file. *)
Definition ingest_request (source : jstring) (file : File.t) : request :=
  PostIngestFile file (form_source source file).

(** The network answers the calls for [files], made one after the other
    after the requests [sent], with the responses [responses]. *)
Fixpoint all_ingested (net : network) (sent : list request) (source : jstring)
    (files : list File.t) (responses : list IngestResponse.t) : Prop :=
  match files, responses with
  | [], [] => True
  | file :: files', response :: responses' =>
      (∃ body, net_ingest_file net sent file (form_source source file)
               = Resolves (Success (Returns response) body))
      ∧ all_ingested net (sent ++ [ingest_request source file]) source files' responses'
  | _, _ => False
  end.

(** The [ingestFile] call for [file], made after the requests [sent],
    throws [e]: the fetch is rejected, the response is not ok, or its JSON
    cannot be read. *)
Definition ingest_fails (net : network) (sent : list request) (source : jstring)
    (file : File.t) (e : exn) : Prop :=
  match net_ingest_file net sent file (form_source source file) with
  | Rejects e' => e' = e
  | Resolves (Failure status errorData) => failure_error status errorData = e
  | Resolves (Success (Throws e') _) => e' = e
  | Resolves (Success (Returns _) _) => False
  end.

(** The sum of the [chunks_processed] of a list of responses. *)
Definition total_chunks (responses : list IngestResponse.t) : N :=
  foldr N.add 0%N (IngestResponse.chunks_processed <$> responses).

(** The [ingestFile] requests among the requests sent. *)
Definition ingest_file_requests (sent : list request) : list request :=
  List.filter (λ r, match r with PostIngestFile _ _ => true | _ => false end) sent.

(** The parent's callback returns and leaves the component's state alone;
    it may log and send requests of its own, none of them an upload. *)
Definition callback_frames {S} (callback : option (M S unit)) : Prop :=
  ∀ cb, callback = Some cb →
    ∀ w, ∃ logged sent,
      cb w = (World (ui w) (console w ++ logged) (requests w ++ sent), Returns tt)
      ∧ ingest_file_requests sent = [].

(** The two inputs of a text upload. *)
Inductive input := text_input | source_input.

(** ** Sample data for the examples *)

(** The JSON text [{"answer":"<a>"}]; [34] is the double quote. *)
Definition answer_json (a : jstring) : jstring :=
  js "{" ++ [34%N] ++ js "answer" ++ [34%N] ++ js ":"
    ++ [34%N] ++ a ++ [34%N] ++ js "}".

Definition answer_chunk (a : jstring) : StreamChunk.t :=
  StreamChunk.Build None (Some a) None.

Definition sources_chunk (l : list jstring) : StreamChunk.t :=
  StreamChunk.Build (Some l) None None.

(** The body [{"detail": "<text>"}] of a response that is not ok. *)
Definition detail_body (text : jstring) : JSON.t :=
  JSON.Object [(js "detail", JSON.String text)].

(** A parser for the examples: it knows the texts of two answer events
    and throws on every other text. *)
Definition sample_parse (s : jstring) : result StreamChunk.t :=
  if decide (s = answer_json (js "Hi")) then Returns (answer_chunk (js "Hi"))
  else if decide (s = answer_json (js "!")) then Returns (answer_chunk (js "!"))
  else Throws (Error (js "Unexpected token")).

(** The same parser with the values as parsed; it also knows a number,
    [null] and an array. *)
Definition sample_parse_value (s : jstring) : result JSON.t :=
  if decide (s = answer_json (js "Hi")) then
    Returns (JSON.Object [(js "answer", JSON.String (js "Hi"))])
  else if decide (s = answer_json (js "!")) then
    Returns (JSON.Object [(js "answer", JSON.String (js "!"))])
  else if decide (s = js "42") then Returns (JSON.Number (js "42"))
  else if decide (s = js "null") then Returns JSON.Null
  else if decide (s = js "[1]") then Returns (JSON.Array [JSON.Number (js "1")])
  else Throws (Error (js "Unexpected token")).

(** A network for the examples: [/ask] answers with the given outcome and
    every other request is rejected. *)
Definition sample_net (ask : fetch_outcome unit) : network :=
  Network (λ _ _, ask)
    (λ _ _ _, Rejects (Error (js "Failed to fetch")))
    (λ _ _ _, Rejects (Error (js "Failed to fetch")))
    (λ _, Rejects (Error (js "Failed to fetch"))).

Definition sample_stream (pieces : list jstring) (fin : stream_end)
    : fetch_outcome unit :=
  Resolves (Success (Throws (Error (js "not JSON"))) (Some (Stream pieces fin))).

Definition empty_world {S} (st : S) : world S := World st [] [].

(** A stream text of two events, the second line not ended by a line
    feed, and one way of cutting it into four reads. *)
Definition sample_text : jstring :=
  js "data: " ++ answer_json (js "Hi") ++ [LF] ++ js "data: " ++ answer_json (js "!").

Definition sample_pieces : list jstring :=
  [js "data: " ++ take 5 (answer_json (js "Hi"));
   drop 5 (answer_json (js "Hi")) ++ [LF] ++ js "da";
   [];
   js "ta: " ++ answer_json (js "!")].

(** A line whose payload is not JSON, between two well-formed lines. *)
Definition sample_before : jstring := js "data: " ++ answer_json (js "Hi").
Definition sample_bad : jstring := js "data: {oops".
Definition sample_after : jstring := js "data: " ++ answer_json (js "!").

Definition sample_fresh : Fresh.t :=
  Fresh.Build (js "msg_1_a") 1 (js "msg_1_b") 1.

Definition sample_chat : ChatState.t := ChatState.Build [] false None.

(** A stream that breaks after one complete event line, in the middle of
    the next line. *)
Definition broken_pieces : list jstring :=
  [js "data: " ++ answer_json (js "Hi"); [LF] ++ js "data: " ++ take 4 (answer_json (js "!"))].

Definition network_error : exn := Error (js "network error").

(** A network for the upload examples: a file named [bad.pdf] is refused
    with a detail, every other file is ingested in as many chunks as it
    has bytes; other requests are rejected. *)
Definition upload_net : network :=
  Network (λ _ _, Rejects (Error (js "Failed to fetch")))
    (λ _ _ _, Rejects (Error (js "Failed to fetch")))
    (λ _ file _,
       if decide (File.name file = js "bad.pdf") then
         Resolves (Failure 500 (Returns (detail_body (js "Could not read PDF"))))
       else
         Resolves (Success
                     (Returns (IngestResponse.Build (js "success")
                                 (N.of_nat (length (File.bytes file)))
                                 (File.name file)))
                     None))
    (λ _, Rejects (Error (js "Failed to fetch"))).

Definition notes_txt : File.t := File.Build (js "notes.txt") [104; 105]%N.
Definition facts_txt : File.t := File.Build (js "facts.txt") [115; 107; 121]%N.
Definition bad_pdf : File.t := File.Build (js "bad.pdf") [37]%N.

Definition files_form (files : list File.t) : UploadState.t :=
  UploadState.Build file_tab [] [] files false None (Some (js "C:\fakepath\notes.txt")).

Definition text_form (text source : jstring) : UploadState.t :=
  UploadState.Build text_tab text source [] false None None.

(** The text of the message the component shows, if any. *)
Definition shown_text (st : UploadState.t) : jstring :=
  from_option snd [] (UploadState.message st).

(** A chunk-granular listing: two chunks of [facts.txt] around one of
    [notes.txt]. *)
Definition sample_documents : DocumentsResponse.t :=
  DocumentsResponse.Build 3
    [DocumentInfo.Build 1 (js "facts.txt") (js "The sky is blue.");
     DocumentInfo.Build 2 (js "notes.txt") (js "hi");
     DocumentInfo.Build 3 (js "facts.txt") (js "Water boils at 100C.")].

Definition documents_net (answer : fetch_outcome DocumentsResponse.t) : network :=
  Network (λ _ _, Rejects (Error (js "Failed to fetch")))
    (λ _ _ _, Rejects (Error (js "Failed to fetch")))
    (λ _ _ _, Rejects (Error (js "Failed to fetch")))
    (λ _, answer).

Definition sample_app : AppState.t := AppState.Build chat_view [] None.

(** ** Further notions and sample data *)

(** An event that carries neither sources nor answer text, such as an
    [{ error: ... }] event. *)
Definition carries_nothing (chunk : StreamChunk.t) : Prop :=
  StreamChunk.sources chunk = None
  ∧ (StreamChunk.answer chunk = None ∨ StreamChunk.answer chunk = Some []).

(** A parser for the examples that reads every text as one error event. *)
Definition error_parse (s : jstring) : result StreamChunk.t :=
  Returns (StreamChunk.Build None None (Some (js "generation failed"))).

(** ** Payloads of the declared type *)

(** A JSON value that is a string, and one that is an array of strings. *)
Definition as_string (value : JSON.t) : option jstring :=
  match value with JSON.String s => Some s | _ => None end.

Definition as_strings (value : JSON.t) : option (list jstring) :=
  match value with JSON.Array items => mapM as_string items | _ => None end.

(** An optional member of an interface: absent, or of the declared type. *)
Definition optional_member {A} (read : JSON.t → option A) (member : option JSON.t)
    : option (option A) :=
  match member with
  | None => Some None
  | Some value => Some <$> read value
  end.

(** A parsed value read at the type [StreamChunk]: an object whose members
    [sources], [answer] and [error], where it has them, are an array of
    strings, a string and a string.  Other values, [null] among them, are
    not chunks, whatever the cast in [processLines] says. *)
Definition as_StreamChunk (value : JSON.t) : option StreamChunk.t :=
  match value with
  | JSON.Object members =>
      sources ← optional_member as_strings (JSON.member (js "sources") members);
      answer ← optional_member as_string (JSON.member (js "answer") members);
      error ← optional_member as_string (JSON.member (js "error") members);
      Some (StreamChunk.Build sources answer error)
  | _ => None
  end.

(** Every payload of [text] that [JSON.parse] (here [parse]) accepts is a
    chunk of the declared type, and [JSON_parse] is [parse] with its
    values read at that type. *)
Definition chunks_as_declared (parse : jstring → result JSON.t)
    (JSON_parse : jstring → result StreamChunk.t) (text : jstring) : Prop :=
  Forall (λ line,
            startsWith line DATA = true →
            trim (drop 6 line) ≠ [] →
            match parse (trim (drop 6 line)) with
            | Returns value =>
                ∃ chunk, as_StreamChunk value = Some chunk
                         ∧ JSON_parse (trim (drop 6 line)) = Returns chunk
            | Throws e => JSON_parse (trim (drop 6 line)) = Throws e
            end)
         (split text LF).

(** [clearMessages] of [useChat]: [setState] with the initial state. *)
Definition clearMessages : M ChatState.t unit :=
  setState (λ _, ChatState.Build [] false None).

(** The error a request ends in, if any: the rejection of [fetch], the
    error made from a response that is not ok, or the rejection of
    [response.json()]. *)
Definition request_error {T} (outcome : fetch_outcome T) : option exn :=
  match outcome with
  | Rejects e => Some e
  | Resolves (Failure status errorData) => Some (failure_error status errorData)
  | Resolves (Success (Throws e) _) => Some e
  | Resolves (Success (Returns _) _) => None
  end.

(** The value a request ends in, if any. *)
Definition request_value {T} (outcome : fetch_outcome T) : option T :=
  match outcome with
  | Resolves (Success (Returns v) _) => Some v
  | _ => None
  end.

(** The entry [apiRequest] writes to the console for a failed request. *)
Definition api_error_entry (endpoint : jstring) (e : exn) : log_entry :=
  console_error [Text (js "API Error (" ++ endpoint ++ js "):"); Thrown e].


(** ** Components side by side *)

(** An action of a component, run on its part of a larger state. *)
Definition zoom {S T A} (get : T → S) (set : S → T → T) (m : M S A) : M T A :=
  fun w =>
    match m (World (get (ui w)) (console w) (requests w)) with
    | (w', r) => (World (set (ui w') (ui w)) (console w') (requests w'), r)
    end.

(** ** [deleteDocument] and [handleDelete] of [App] *)

(** The dialogs of [window.confirm] and [window.alert]. *)
Inductive dialog :=
| confirm_dialog (text : jstring) (answer : bool)
| alert_dialog (text : jstring).

Module AppPage.
(** The state of [App] with what its handlers show and send besides:
    the dialogs opened and the paths of the [DELETE] requests sent (the
    log of [world] has no entry for them). *)
Record t := Build {
  app : AppState.t;
  dialogs : list dialog;
  deleted : list jstring
}.
End AppPage.

Section HandleDelete.
Variable net : network.

(** What [DELETE <path>] answers, given the requests and the deletions sent
    before; the body of an ok response is [{ status }]. *)
Variable net_delete : list request → list jstring → jstring → fetch_outcome jstring.

(** [encodeURIComponent], which throws a [URIError] on a lone surrogate. *)
Variable encodeURIComponent : jstring → result jstring.

(** What the user answers to a [confirm] dialog. *)
Variable user_confirms : jstring → bool.

Definition set_app (st : AppState.t) (page : AppPage.t) : AppPage.t :=
  AppPage.Build st (AppPage.dialogs page) (AppPage.deleted page).

Definition setIsDeleting (v : option jstring) : M AppPage.t unit :=
  setState (fun page =>
    set_app (AppState.Build (AppState.view (AppPage.app page))
               (AppState.documents (AppPage.app page)) v) page).

Definition confirm (text : jstring) : M AppPage.t bool :=
  fun w =>
    let answer := user_confirms text in
    (World (AppPage.Build (AppPage.app (ui w))
              (AppPage.dialogs (ui w) ++ [confirm_dialog text answer])
              (AppPage.deleted (ui w)))
       (console w) (requests w),
     Returns answer).

Definition alert (text : jstring) : M AppPage.t unit :=
  setState (fun page =>
    AppPage.Build (AppPage.app page) (AppPage.dialogs page ++ [alert_dialog text])
      (AppPage.deleted page)).

(** [fetch(url, { method: 'DELETE' })] *)
Definition fetch_delete (path : jstring) : M AppPage.t (response jstring) :=
  fun w =>
    let w' := World (AppPage.Build (AppPage.app (ui w)) (AppPage.dialogs (ui w))
                       (AppPage.deleted (ui w) ++ [path]))
                (console w) (requests w) in
    match net_delete (requests w) (AppPage.deleted (ui w)) path with
    | Rejects e => (w', Throws e)
    | Resolves r => (w', Returns r)
    end.

Definition deleteDocument (source : jstring) : M AppPage.t jstring :=
  let* encoded := of_result (encodeURIComponent source) in
  let* response := fetch_delete (js "/documents/" ++ encoded) in
  match response with
  | Failure status errorData => throw (failure_error status errorData)
  | Success json _ => of_result json
  end.

(** The text of the [confirm] dialog; [34] is the double quote. *)
Definition delete_question (source : jstring) : jstring :=
  js "Are you sure you want to delete " ++ [34%N] ++ source ++ [34%N] ++ js "?".

Definition handleDelete (source : jstring) : M AppPage.t unit :=
  let* confirmed := confirm (delete_question source) in
  if negb confirmed then ret tt
  else
    setIsDeleting (Some source) >>
    try_finally
      (try_catch
         (deleteDocument source >>
          zoom AppPage.app set_app (fetchDocs net))
         (fun error =>
            alert (js "Failed to delete document") >>
            log (console_error [Thrown error])))
      (setIsDeleting None).

End HandleDelete.

(** The error [deleteDocument] ends in, if any. *)
Definition delete_error (encoded : result jstring)
    (answer : jstring → fetch_outcome jstring) : option exn :=
  match encoded with
  | Throws e => Some e
  | Returns path => request_error (answer (js "/documents/" ++ path))
  end.

(** The result of [fetchDocs] on the state of [App]: the new list when
    the request succeeds, the state as it is otherwise. *)
Definition refreshed (outcome : fetch_outcome DocumentsResponse.t)
    (st : AppState.t) : AppState.t :=
  match request_value outcome with
  | Some data =>
      AppState.Build (AppState.view st)
        (unique_docs (DocumentsResponse.documents data) [] ∅)
        (AppState.isDeleting st)
  | None => st
  end.

(** What [fetchDocs] writes to the console. *)
Definition refresh_log (outcome : fetch_outcome DocumentsResponse.t) : list log_entry :=
  match request_error outcome with
  | Some e =>
      [api_error_entry (js "/documents") e;
       console_error [Text (js "Failed to fetch documents:"); Thrown e]]
  | None => []
  end.

(** Samples for [handleDelete]: an encoder that passes ASCII through and
    refuses the lone surrogate [0xD800]; a server that deletes whatever it
    is asked to. *)
Definition sample_encode (s : jstring) : result jstring :=
  if decide (55296%N ∈ s) then Throws (Error (js "URI malformed")) else Returns s.

Definition delete_ok : list request → list jstring → jstring → fetch_outcome jstring :=
  λ _ _ _, Resolves (Success (Returns (js "success")) None).

Definition delete_refused : list request → list jstring → jstring → fetch_outcome jstring :=
  λ _ _ _, Resolves (Failure 500 (Returns (detail_body (js "database is locked")))).

Definition sample_page : AppPage.t :=
  AppPage.Build
    (AppState.Build chat_view
       [DocumentInfo.Build 1 (js "facts.txt") (js "The sky is blue.");
        DocumentInfo.Build 2 (js "notes.txt") (js "hi")] None)
    [] [].

Definition after_delete_documents : DocumentsResponse.t :=
  DocumentsResponse.Build 1 [DocumentInfo.Build 2 (js "notes.txt") (js "hi")].

(** ** [MessageInput] inside [Chat] *)

Module ChatPage.
(** The state of [useChat] beside the [input] of [MessageInput]. *)
Record t := Build {
  chat : ChatState.t;
  input : jstring
}.
End ChatPage.

Definition set_chat (st : ChatState.t) (page : ChatPage.t) : ChatPage.t :=
  ChatPage.Build st (ChatPage.input page).

Section MessageInput.
(** The props of the component. *)
Variable onSend : jstring → M ChatPage.t unit.
Variable isLoading : bool.

Definition setInput (v : jstring) : M ChatPage.t unit :=
  setState (fun page => ChatPage.Build (ChatPage.chat page) v).

Definition handleSend : M ChatPage.t unit :=
  let* page := getState in
  let input := ChatPage.input page in
  if truthy (trim input) && negb isLoading then
    onSend input >>
    setInput []
  else ret tt.

(** [handleKeyDown(e)] for [e.key] and [e.shiftKey]; the result tells
    whether [e.preventDefault()] was called. *)
Definition handleKeyDown (key : jstring) (shiftKey : bool) : M ChatPage.t bool :=
  if bool_decide (key = js "Enter") && negb shiftKey then
    handleSend >>
    ret true
  else ret false.

End MessageInput.

(** [<MessageInput onSend={sendMessage} isLoading={isLoading} />] in
    [Chat]: the props come from [useChat]. *)
Definition Chat_onSend (net : network) (JSON_parse : jstring → result StreamChunk.t)
    (fresh : Fresh.t) (message : jstring) : M ChatPage.t unit :=
  zoom ChatPage.chat set_chat (sendMessage net JSON_parse message fresh).

Definition Chat_handleSend (net : network) (JSON_parse : jstring → result StreamChunk.t)
    (fresh : Fresh.t) : M ChatPage.t unit :=
  let* page := getState in
  handleSend (Chat_onSend net JSON_parse fresh)
    (ChatState.isLoading (ChatPage.chat page)).

Definition Chat_handleKeyDown (net : network)
    (JSON_parse : jstring → result StreamChunk.t) (fresh : Fresh.t)
    (key : jstring) (shiftKey : bool) : M ChatPage.t bool :=
  let* page := getState in
  handleKeyDown (Chat_onSend net JSON_parse fresh)
    (ChatState.isLoading (ChatPage.chat page)) key shiftKey.

(** ** The upload button of [DocumentUpload] *)

#[global] Instance tab_eq_dec : EqDecision tab.
Proof. solve_decision. Defined.

(** The [disabled] attribute of the button. *)
Definition upload_disabled (st : UploadState.t) : bool :=
  UploadState.isUploading st
  || (bool_decide (UploadState.activeTab st = text_tab)
      && negb (truthy (trim (UploadState.text st))))
  || (bool_decide (UploadState.activeTab st = file_tab)
      && bool_decide (length (UploadState.files st) = 0)).

(** A click on the button: [onClick={handleUpload}] fires unless the
    button is disabled. *)
Definition click_upload (net : network)
    (onUploadSuccess : option (M UploadState.t unit)) : M UploadState.t unit :=
  let* st := getState in
  if upload_disabled st then ret tt else handleUpload net onUploadSuccess.

(** ** [formatMessage] *)

(** The two asterisks of the bold marker. *)
Definition STARS : jstring := js "**".

(** [s.endsWith(suffix)] *)
Definition endsWith (s suffix : jstring) : bool :=
  startsWith (reverse s) (reverse suffix).

(** The code units that [.] does not match in a regular expression
    without the [s] flag: the line terminators. *)
Definition is_line_terminator (c : N) : bool :=
  bool_decide (c ∈ [10; 13; 8232; 8233]%N).

(** What is left of [s] after a leading [**], if it has one. *)
Definition after_stars (s : jstring) : option jstring :=
  match s with
  | a :: b :: rest => if (a =? 42)%N && (b =? 42)%N then Some rest else None
  | _ => None
  end.

(** The lazy run and the closing asterisks of the pattern, tried on [s]: the shortest run of
    code units matched by [.] that a [**] follows; the result is the run
    and what comes after the [**]. *)
Fixpoint lazy_closing (s : jstring) : option (jstring * jstring) :=
  match after_stars s with
  | Some rest => Some ([], rest)
  | None =>
      match s with
      | c :: s' =>
          if is_line_terminator c then None
          else match lazy_closing s' with
               | Some (inner, rest) => Some (c :: inner, rest)
               | None => None
               end
      | [] => None
      end
  end.

(** A match of the pattern that starts at the first code unit of [s]:
    the text matched and what comes after it. *)
Definition match_bold (s : jstring) : option (jstring * jstring) :=
  match after_stars s with
  | Some opened =>
      match lazy_closing opened with
      | Some (inner, rest) => Some (STARS ++ inner ++ STARS, rest)
      | None => None
      end
  | None => None
  end.

(** The loop of [String.prototype.split] for the pattern of
    [formatMessage] (two asterisks, a lazy run of [.], two asterisks, the
    whole captured): [s] is the text from the position [q] under test,
    [piece] the text between the end [p] of the last match and [q].  A
    match ends the piece and is itself put in the result, as the pattern
    captures it; where there is no match the position moves on by one.
    Every step shortens [s], so [fuel] above the length of [s] is never
    used up. *)
Fixpoint split_bold_from (fuel : nat) (s piece : jstring) : list jstring :=
  match fuel with
  | 0 => [piece ++ s]
  | S fuel' =>
      match s with
      | [] => [piece]
      | c :: s' =>
          match match_bold s with
          | Some (matched, rest) => piece :: matched :: split_bold_from fuel' rest []
          | None => split_bold_from fuel' s' (piece ++ [c])
          end
      end
  end.

(** [paragraph.split(pattern)] for that pattern. *)
Definition split_bold (paragraph : jstring) : list jstring :=
  split_bold_from (S (length paragraph)) paragraph [].

(** The nodes [formatMessage] builds: a part of a paragraph is a plain
    string or a [<strong>] element, a paragraph is a [<div>]. *)
Inductive part_node :=
| text_part (s : jstring)
| strong_part (key className children : jstring).

Module Div.
Record t := Build {
  key : nat;
  className : jstring;
  children : list part_node
}.
End Div.

(** The function mapped over the parts of paragraph [pIdx]. *)
Definition format_part (pIdx i : nat) (part : jstring) : part_node :=
  if startsWith part STARS && endsWith part STARS then
    strong_part (of_number (N.of_nat pIdx) ++ js "-" ++ of_number (N.of_nat i))
      (js "font-extrabold") (slice part 2 (Some (-2)%Z))
  else text_part part.

Definition formatMessage (text : jstring) : list Div.t :=
  if negb (truthy text) then []
  else
    let paragraphs := split text LF in
    imap (fun pIdx paragraph =>
            let parts := split_bold paragraph in
            let formattedParagraph := imap (format_part pIdx) parts in
            Div.Build pIdx
              (if (Z.of_nat pIdx <? Z.of_nat (length paragraphs) - 1)%Z
               then js "mb-2" else js "")
              formattedParagraph)
         paragraphs.

(** * Properties *)

Example split_three : split (js "a" ++ [LF] ++ js "b" ++ [LF]) LF = [js "a"; js "b"; js ""].
Proof. reflexivity. Qed.

Example slice_negative : slice (js "abcdef") (-2) None = js "ef".
Proof. reflexivity. Qed.

Example lastIndexOf_none : lastIndexOf (js "abc") LF = (-1)%Z.
Proof. reflexivity. Qed.

Example Set_of_keeps_first : Set_of [2; 1; 2; 3; 1] = [2; 1; 3].
Proof. reflexivity. Qed.


(** ** Strings *)

Lemma split_nonempty s sep : split s sep ≠ [].
Proof.
  destruct s as [|c s]; simpl; [done|].
  destruct (c =? sep)%N; [done|]. by destruct (split s sep).
Qed.

Lemma split_app_sep a b sep :
  split (a ++ sep :: b) sep = split a sep ++ split b sep.
Proof.
  induction a as [|c a IH]; simpl.
  - by rewrite N.eqb_refl.
  - destruct (c =? sep)%N; [by rewrite IH|].
    rewrite IH. pose proof (split_nonempty a sep).
    by destruct (split a sep).
Qed.

Lemma split_no_sep s sep : sep ∉ s → split s sep = [s].
Proof.
  induction s as [|c s IH]; intros Hnot; simpl; [done|].
  apply not_elem_of_cons in Hnot as [Hne Hs].
  destruct (N.eqb_spec c sep); [congruence|]. by rewrite IH.
Qed.

Lemma lastIndexOf_from_absent s c i found :
  c ∉ s → lastIndexOf_from s c i found = found.
Proof.
  revert i found. induction s as [|x s IH]; intros i found Hnot; [done|].
  apply not_elem_of_cons in Hnot as [Hne Hs]. simpl.
  destruct (N.eqb_spec x c); [congruence|]. by apply IH.
Qed.

Lemma lastIndexOf_from_last pre post c i found :
  c ∉ post →
  lastIndexOf_from (pre ++ c :: post) c i found = (i + Z.of_nat (length pre))%Z.
Proof.
  intros Hpost. revert i found.
  induction pre as [|x pre IH]; intros i found; simpl.
  - rewrite N.eqb_refl, lastIndexOf_from_absent by done. lia.
  - rewrite IH. lia.
Qed.

Lemma elem_of_last_split (c : N) (s : jstring) :
  c ∈ s → ∃ pre post, s = pre ++ c :: post ∧ c ∉ post.
Proof.
  induction s as [|x s IH]; intros Hin.
  - by apply elem_of_nil in Hin.
  - destruct (decide (c ∈ s)) as [Hs|Hs].
    + destruct (IH Hs) as (pre & post & -> & Hpost).
      by exists (x :: pre), post.
    + apply elem_of_cons in Hin as [->|?]; [|done].
      by exists [], s.
Qed.

Lemma lastIndexOf_absent s c : c ∉ s → lastIndexOf s c = (-1)%Z.
Proof. intros. unfold lastIndexOf. by apply lastIndexOf_from_absent. Qed.

Lemma lastIndexOf_last pre post c :
  c ∉ post → lastIndexOf (pre ++ c :: post) c = Z.of_nat (length pre).
Proof.
  intros. unfold lastIndexOf. by rewrite lastIndexOf_from_last.
Qed.

Lemma slice_before pre c post :
  slice (pre ++ c :: post) 0 (Some (Z.of_nat (length pre))) = pre.
Proof.
  unfold slice, relative_index. rewrite length_app. simpl.
  destruct (Z.ltb_spec (Z.of_nat (length pre)) 0); [lia|].
  rewrite Z.min_l by lia. rewrite Z.min_l by lia.
  rewrite Z.sub_0_r, Nat2Z.id. change (Z.to_nat 0) with 0.
  by rewrite drop_0, take_app_length.
Qed.

Lemma slice_after pre c post :
  slice (pre ++ c :: post) (Z.of_nat (length pre) + 1) None = post.
Proof.
  unfold slice, relative_index. rewrite length_app. simpl.
  destruct (Z.ltb_spec (Z.of_nat (length pre) + 1) 0); [lia|].
  rewrite Z.min_l by lia.
  replace (Z.to_nat (Z.of_nat (length pre) + 1)) with (length pre + 1) by lia.
  replace (pre ++ c :: post) with ((pre ++ [c]) ++ post) by by rewrite <- app_assoc.
  rewrite drop_app_length' by (rewrite length_app; simpl; lia).
  apply take_ge. lia.
Qed.

(** What the loop of [askQuestion] computes from its buffer. *)
Lemma buffer_cut (buffer : jstring) :
  ((LF ∉ buffer) ∧ lastIndexOf buffer LF = (-1)%Z)
  ∨ (∃ pre post,
       buffer = pre ++ LF :: post ∧ (LF ∉ post)
       ∧ lastIndexOf buffer LF ≠ (-1)%Z
       ∧ slice buffer 0 (Some (lastIndexOf buffer LF)) = pre
       ∧ slice buffer (lastIndexOf buffer LF + 1) None = post).
Proof.
  destruct (decide (LF ∈ buffer)) as [Hin|Hnot].
  - right. destruct (elem_of_last_split _ _ Hin) as (pre & post & -> & Hpost).
    exists pre, post. rewrite lastIndexOf_last by done.
    split_and!; [done|done|lia|apply slice_before|apply slice_after].
  - left. split; [done|]. by apply lastIndexOf_absent.
Qed.

Lemma before_last_LF_absent s : LF ∉ s → before_last_LF s = None.
Proof.
  induction s as [|c s IH]; intros Hnot; [done|].
  apply not_elem_of_cons in Hnot as [Hne Hs]. simpl. rewrite IH by done.
  destruct (N.eqb_spec c LF); congruence.
Qed.

Lemma before_last_LF_app pre post :
  before_last_LF (pre ++ LF :: post)
  = Some (pre ++ match before_last_LF post with
                 | Some p => LF :: p
                 | None => []
                 end).
Proof.
  induction pre as [|c pre IH]; simpl.
  - by destruct (before_last_LF post).
  - by rewrite IH.
Qed.

Lemma slice_from s n : slice s (Z.of_nat n) None = drop n s.
Proof.
  unfold slice, relative_index.
  destruct (Z.ltb_spec (Z.of_nat n) 0); [lia|].
  destruct (decide (n ≤ length s)).
  - rewrite Z.min_l by lia. rewrite Nat2Z.id.
    apply take_ge. rewrite length_drop. lia.
  - rewrite Z.min_r by lia. rewrite Nat2Z.id.
    rewrite !drop_ge by lia. by destruct (Z.to_nat _).
Qed.

Lemma trimStart_keeps c s :
  c ∈ s → is_white_space c = false → c ∈ trimStart s.
Proof.
  intros Hin Hc. induction s as [|x s IH]; [done|]. simpl.
  destruct (is_white_space x) eqn:Hx; [|done].
  apply elem_of_cons in Hin as [->|Hin]; [congruence|]. by apply IH.
Qed.

Lemma trim_keeps c s : c ∈ s → is_white_space c = false → c ∈ trim s.
Proof.
  intros Hin Hc. unfold trim, trimEnd.
  rewrite elem_of_reverse. apply trimStart_keeps; [|done].
  rewrite elem_of_reverse. by apply trimStart_keeps.
Qed.

Lemma startsWith_DATA_truthy line :
  startsWith line DATA = true → truthy (trim line) = true.
Proof.
  intros Hstart. destruct line as [|c line]; [done|].
  simpl in Hstart. apply andb_prop in Hstart as [Hc _].
  apply N.eqb_eq in Hc. subst c.
  assert (Hin : (100%N : N) ∈ trim (100%N :: line)).
  { apply trim_keeps; [by left|done]. }
  destruct (trim _); [by apply elem_of_nil in Hin|done].
Qed.

Lemma trimStart_blank s : blank s → trimStart s = [].
Proof.
  induction 1 as [|c s Hc _ IH]; simpl; [done|]. by rewrite Hc.
Qed.

Lemma trim_blank s : trim s = [] ↔ blank s.
Proof.
  split.
  - intros Htrim. apply Forall_forall. intros c Hc.
    destruct (is_white_space c) eqn:Hws; [done|].
    pose proof (trim_keeps c s Hc Hws) as Hin.
    rewrite Htrim in Hin. by apply elem_of_nil in Hin.
  - intros Hblank. unfold trim. by rewrite trimStart_blank.
Qed.

(** ** The monad *)

Section MonadLaws.
Context {S : Type}.
Implicit Types w : world S.

Lemma bind_assoc {A B C} (m : M S A) (f : A → M S B) (g : B → M S C) w :
  bind (bind m f) g w = bind m (fun a => bind (f a) g) w.
Proof. unfold bind. destruct (m w) as [w' [a|e]]; done. Qed.

Lemma bind_ext {A B} (m : M S A) (f g : A → M S B) w :
  (∀ a w', f a w' = g a w') → bind m f w = bind m g w.
Proof. intros Hfg. unfold bind. destruct (m w) as [w' [a|e]]; auto. Qed.

Lemma for_of_app {A} (xs ys : list A) (body : A → M S unit) w :
  for_of (xs ++ ys) body w = (for_of xs body >> for_of ys body) w.
Proof.
  revert w. induction xs as [|x xs IH]; intros w; simpl; [done|].
  rewrite bind_assoc. by apply bind_ext.
Qed.

Lemma for_of_returns {A} (xs : list A) (body : A → M S unit) w :
  (∀ x w, ∃ w', body x w = (w', Returns tt)) →
  ∃ w', for_of xs body w = (w', Returns tt).
Proof.
  intros Hbody. revert w. induction xs as [|x xs IH]; intros w; simpl.
  - by eexists.
  - unfold bind. destruct (Hbody x w) as [w1 ->]. apply IH.
Qed.

End MonadLaws.

(** ** [processLines] *)

Section ProcessLines.
Context {S C : Type}.
Variable JSON_parse : jstring → result C.
Implicit Types (w : world S) (onChunk : C → M S unit).

Lemma processLines_app a b onChunk w :
  processLines JSON_parse (a ++ LF :: b) onChunk w
  = (processLines JSON_parse a onChunk >> processLines JSON_parse b onChunk) w.
Proof. unfold processLines. by rewrite split_app_sep, for_of_app. Qed.

Lemma processLines_returns text onChunk w :
  ∃ w', processLines JSON_parse text onChunk w = (w', Returns tt).
Proof.
  unfold processLines. apply for_of_returns. clear. intros line w.
  destruct (_ || _); [by eexists|].
  unfold try_catch, bind, of_result, ret, log.
  destruct (truthy _); [|by eexists].
  destruct (JSON_parse _) as [data|e]; [|by eexists].
  destruct (onChunk data w) as [w' [[]|e]]; by eexists.
Qed.

End ProcessLines.

(** ** The read loop of [askQuestion] *)

Section ReadLoop.
Context {S C : Type}.
Variable JSON_parse : jstring → result C.
Variable onChunk : C → M S unit.
Variable onComplete : M S unit.
Implicit Types w : world S.

Lemma bind_ext_l {A B} (m m' : M S A) (f : A → M S B) w :
  m w = m' w → bind m f w = bind m' f w.
Proof. unfold bind. by intros ->. Qed.

(** When the stream ends, the loop has processed the whole text, line by
    line, however the text was cut into reads. *)
Lemma read_loop_done pending buffer w :
  read_loop JSON_parse onChunk onComplete pending EndOfStream buffer w
  = (processLines JSON_parse (buffer ++ concat pending) onChunk >> onComplete) w.
Proof.
  revert buffer w. induction pending as [|value pending IH]; intros buffer w.
  - simpl. rewrite app_nil_r. by destruct buffer.
  - cbn [read_loop concat]. cbv zeta.
    destruct (buffer_cut (buffer ++ value))
      as [[Hnot Hidx] | (pre & post & Hcut & Hpost & Hidx & Hpre & Hrest)].
    + rewrite Hidx, bool_decide_eq_false_2 by (intros ?; done).
      by rewrite IH, <- app_assoc.
    + rewrite bool_decide_eq_true_2 by done. rewrite Hpre, Hrest.
      rewrite (bind_ext _ _ (fun _ =>
        processLines JSON_parse (post ++ concat pending) onChunk >> onComplete))
        by (intros; apply IH).
      rewrite (app_assoc buffer), Hcut, <- app_assoc. simpl.
      rewrite <- bind_assoc. apply bind_ext_l. by rewrite processLines_app.
Qed.

(** When a read is rejected, the loop has processed the lines completed
    so far, and nothing of the line under way. *)
Lemma read_loop_rejects pending e buffer w :
  LF ∉ buffer →
  read_loop JSON_parse onChunk onComplete pending (ReadRejects e) buffer w
  = (match before_last_LF (buffer ++ concat pending) with
     | Some complete => processLines JSON_parse complete onChunk
     | None => ret tt
     end >> throw e) w.
Proof.
  revert buffer w. induction pending as [|value pending IH]; intros buffer w Hbuf.
  - simpl. rewrite app_nil_r. by rewrite before_last_LF_absent.
  - cbn [read_loop concat]. cbv zeta.
    destruct (buffer_cut (buffer ++ value))
      as [[Hnot Hidx] | (pre & post & Hcut & Hpost & Hidx & Hpre & Hrest)].
    + rewrite Hidx, bool_decide_eq_false_2 by (intros ?; done).
      by rewrite IH, <- app_assoc.
    + rewrite bool_decide_eq_true_2 by done. rewrite Hpre, Hrest.
      rewrite (bind_ext _ _ (fun _ =>
        match before_last_LF (post ++ concat pending) with
        | Some complete => processLines JSON_parse complete onChunk
        | None => ret tt
        end >> throw e)) by (intros; by apply IH).
      rewrite (app_assoc buffer), Hcut, <- app_assoc. simpl.
      rewrite before_last_LF_app.
      destruct (before_last_LF (post ++ concat pending)) as [complete|].
      * rewrite <- bind_assoc. apply bind_ext_l. by rewrite processLines_app.
      * rewrite app_nil_r. apply bind_ext. intros [] w'. done.
Qed.

End ReadLoop.

(** ** Callbacks that update the state *)

Section StateCallbacks.
Context {S C : Type}.
Variable JSON_parse : jstring → result C.
Variable update : C → S → S.
Implicit Types w : world S.

Lemma for_of_setState {A} (xs : list A) (body : A → M S unit)
    (event : A → option C) :
  (∀ x w, ∃ console',
      body x w
      = (World (from_option update id (event x) (ui w)) console' (requests w),
         Returns tt)) →
  ∀ w, ∃ console',
    for_of xs body w
    = (World (foldl (λ st c, update c st) (ui w) (omap event xs))
         console' (requests w), Returns tt).
Proof.
  intros Hbody. induction xs as [|x xs IH]; intros w.
  - simpl. destruct w. by eexists.
  - cbn [for_of omap]. unfold bind.
    destruct (Hbody x w) as [console1 ->].
    edestruct IH as [console2 ->]. exists console2. cbn.
    by destruct (event x).
Qed.

(** [processLines] with a callback that sets the state applies the
    update of each event of the text, in order. *)
Lemma processLines_setState text w :
  ∃ console',
    processLines JSON_parse text (λ c, setState (update c)) w
    = (World (foldl (λ st c, update c st) (ui w) (parsed_events JSON_parse text))
         console' (requests w), Returns tt).
Proof.
  unfold processLines, parsed_events. apply for_of_setState.
  clear. intros line [st logged sent]. unfold line_event.
  destruct (startsWith line DATA) eqn:Hstart.
  - rewrite (startsWith_DATA_truthy _ Hstart). cbn [negb orb].
    change 6%Z with (Z.of_nat 6). rewrite slice_from.
    unfold try_catch, bind, of_result.
    destruct (truthy (trim (drop 6 line))); [|by eexists].
    destruct (JSON_parse (trim (drop 6 line))); by eexists.
  - rewrite orb_true_r. by eexists.
Qed.

End StateCallbacks.

Lemma foldl_record (events : list StreamChunk.t) (calls : list call) :
  foldl (λ st c, st ++ [onChunk_call c]) calls events
  = calls ++ (onChunk_call <$> events).
Proof.
  revert calls. induction events as [|c events IH]; intros calls; simpl.
  - by rewrite app_nil_r.
  - by rewrite IH, <- app_assoc.
Qed.

Lemma processLines_recorded JSON_parse text (w : world (list call)) :
  ∃ console',
    processLines JSON_parse text record_chunk w
    = (World (ui w ++ (onChunk_call <$> parsed_events JSON_parse text))
         console' (requests w), Returns tt).
Proof.
  destruct (processLines_setState JSON_parse (λ c st, st ++ [onChunk_call c]) text w)
    as [console' Hrun].
  exists console'. unfold record_chunk, record_call.
  by rewrite Hrun, foldl_record.
Qed.

Lemma foldl_record_value {A} (values recorded : list A) :
  foldl (λ st v, st ++ [v]) recorded values = recorded ++ values.
Proof.
  revert recorded. induction values as [|v values IH]; intros recorded; simpl.
  - by rewrite app_nil_r.
  - by rewrite IH, <- app_assoc.
Qed.

(** [processLines] with the recording callback records the events of the
    text, whatever the type of the parsed values. *)
Lemma processLines_values {C} (JSON_parse : jstring → result C) text
    (w : world (list C)) :
  ∃ console',
    processLines JSON_parse text record_value w
    = (World (ui w ++ parsed_events JSON_parse text) console' (requests w),
       Returns tt).
Proof.
  destruct (processLines_setState JSON_parse (λ v st, st ++ [v]) text w)
    as [console' Hrun].
  exists console'. unfold record_value.
  by rewrite Hrun, foldl_record_value.
Qed.

(** ** Events of a text *)

Section EventsOfText.
Context {C : Type}.
Variable JSON_parse : jstring → result C.

Lemma parsed_events_app a b :
  parsed_events JSON_parse (a ++ LF :: b)
  = parsed_events JSON_parse a ++ parsed_events JSON_parse b.
Proof. unfold parsed_events. by rewrite split_app_sep, omap_app. Qed.

Lemma parsed_events_line line :
  LF ∉ line →
  parsed_events JSON_parse line = from_option (λ c, [c]) [] (line_event JSON_parse line).
Proof.
  intros Hline. unfold parsed_events. rewrite split_no_sep by done.
  simpl. by destruct (line_event JSON_parse line).
Qed.

Lemma line_event_Some line data :
  line_event JSON_parse line = Some data
  ↔ startsWith line DATA = true
    ∧ trim (drop 6 line) ≠ []
    ∧ JSON_parse (trim (drop 6 line)) = Returns data.
Proof.
  unfold line_event. destruct (startsWith line DATA);
    [|split; [done|by intros [? _]]].
  destruct (trim (drop 6 line)) as [|c payload] eqn:Hpayload;
    [split; [done|by intros (_ & ? & _)]|].
  cbn [truthy]. destruct (JSON_parse (c :: payload)) as [parsed|e]; split.
  - by intros [= ->].
  - by intros (_ & _ & [= ->]).
  - done.
  - by intros (_ & _ & ?).
Qed.

End EventsOfText.

(** ** The calls of [askQuestion] *)

Section AskRecorded.
Variable JSON_parse : jstring → result StreamChunk.t.

(** The calls [askQuestion] makes on a stream that ends normally. *)
Lemma askQuestion_recorded net question json pieces (w : world (list call)) :
  net_ask net (requests w) question
    = Resolves (Success json (Some (Stream pieces EndOfStream))) →
  ∃ console',
    askQuestion net JSON_parse question record_chunk
      (record_call onComplete_call) (λ e, record_call (onError_call e)) w
    = (World (ui w ++ (onChunk_call <$> parsed_events JSON_parse (concat pieces))
                   ++ [onComplete_call])
         console' (requests w ++ [PostAsk question]), Returns tt).
Proof.
  intros Hnet. unfold askQuestion, try_catch.
  unfold bind at 1. unfold fetch. rewrite Hnet. cbn [reads ending].
  rewrite read_loop_done. cbn [app]. unfold bind.
  edestruct processLines_recorded as [console' ->]. cbn.
  rewrite <- app_assoc. by eexists.
Qed.

(** The calls [askQuestion] makes on a stream one of whose reads is
    rejected: the events of the lines completed by then, and [onError]. *)
Lemma askQuestion_recorded_rejects net question json pieces e (w : world (list call)) :
  net_ask net (requests w) question
    = Resolves (Success json (Some (Stream pieces (ReadRejects e)))) →
  ∃ console',
    askQuestion net JSON_parse question record_chunk
      (record_call onComplete_call) (λ e, record_call (onError_call e)) w
    = (World (ui w ++ (onChunk_call <$>
                         from_option (parsed_events JSON_parse) []
                           (before_last_LF (concat pieces)))
                   ++ [onError_call e])
         console' (requests w ++ [PostAsk question]), Returns tt).
Proof.
  intros Hnet. unfold askQuestion, try_catch.
  unfold bind at 1. unfold fetch. rewrite Hnet. cbn [reads ending].
  rewrite read_loop_rejects by apply not_elem_of_nil. cbn [app]. unfold bind.
  destruct (before_last_LF (concat pieces)) as [complete|]; cbn [from_option].
  - edestruct processLines_recorded as [console' ->].
    unfold record_call, setState. cbn. rewrite <- app_assoc. by eexists.
  - unfold record_call, setState. cbn. by eexists.
Qed.

End AskRecorded.

(** ** Keeping the first of each key *)

Section FirstSeen.
Context {A K : Type} (key : A → K).
Implicit Types (all l : list A) (x y : A).

Lemma first_seen_nil : first_seen key [] [].
Proof.
  split_and!.
  - constructor.
  - intros x Hx. by apply elem_of_nil in Hx.
  - intros y Hy. by apply elem_of_nil in Hy.
  - intros i j x y _ Hi. by rewrite lookup_nil in Hi.
Qed.

Lemma first_seen_elem_of all l y : first_seen key all l → y ∈ l → y ∈ all.
Proof.
  intros (_ & _ & Hfirst & _) Hy.
  destruct (Hfirst y Hy) as (pre & post & -> & _).
  apply elem_of_app. right. by left.
Qed.

Lemma first_seen_key_elem_of all l x :
  first_seen key all l → key x ∈ key <$> all ↔ key x ∈ key <$> l.
Proof.
  intros Hseen. split; intros Hin.
  - apply list_elem_of_fmap in Hin as (a & Hkey & Ha).
    destruct Hseen as (_ & Hall & _).
    destruct (Hall a Ha) as (y & Hy & Hky).
    rewrite Hkey, <- Hky. by apply list_elem_of_fmap_2.
  - apply list_elem_of_fmap in Hin as (y & Hkey & Hy).
    rewrite Hkey. apply list_elem_of_fmap_2.
    by eapply first_seen_elem_of.
Qed.

(** A member whose key is already there changes nothing. *)
Lemma first_seen_snoc_old all l x :
  first_seen key all l → key x ∈ key <$> l → first_seen key (all ++ [x]) l.
Proof.
  intros (Hnodup & Hall & Hfirst & Horder) Hin. split_and!.
  - done.
  - intros a Ha. apply elem_of_app in Ha as [Ha|Ha]; [by apply Hall|].
    apply list_elem_of_singleton in Ha as ->.
    apply list_elem_of_fmap in Hin as (y & Hkey & Hy). by exists y.
  - intros y Hy. destruct (Hfirst y Hy) as (pre & post & -> & Hpre).
    exists pre, (post ++ [x]). by rewrite <- app_assoc.
  - intros i j a b Hij Hi Hj.
    destruct (Horder i j a b Hij Hi Hj) as (pre & post & -> & Hpre & Hz).
    exists pre, (post ++ [x]). by rewrite <- app_assoc.
Qed.

(** A member with a new key goes to the end. *)
Lemma first_seen_snoc_new all l x :
  first_seen key all l → key x ∉ key <$> l → first_seen key (all ++ [x]) (l ++ [x]).
Proof.
  intros Hseen Hnew.
  assert (Hfresh : ∀ a, a ∈ all → key a ≠ key x).
  { intros a Ha Heq. apply Hnew. rewrite <- Heq.
    apply (first_seen_key_elem_of all l a Hseen). by apply list_elem_of_fmap_2. }
  pose proof Hseen as (Hnodup & Hall & Hfirst & Horder). split_and!.
  - rewrite fmap_app. apply NoDup_app. split_and!; [done| |apply NoDup_singleton].
    intros k Hk Hkx. apply list_elem_of_singleton in Hkx as ->. done.
  - intros a Ha. apply elem_of_app in Ha as [Ha|Ha].
    + destruct (Hall a Ha) as (y & Hy & Hkey). exists y. split; [|done].
      apply elem_of_app. by left.
    + apply list_elem_of_singleton in Ha as ->. exists x. split; [|done].
      apply elem_of_app. right. by left.
  - intros y Hy. apply elem_of_app in Hy as [Hy|Hy].
    + destruct (Hfirst y Hy) as (pre & post & -> & Hpre).
      exists pre, (post ++ [x]). by rewrite <- app_assoc.
    + apply list_elem_of_singleton in Hy as ->. by exists all, [].
  - intros i j a b Hij Hi Hj.
    destruct (decide (j < length l)) as [Hlt|Hge].
    + rewrite lookup_app_l in Hi by lia. rewrite lookup_app_l in Hj by done.
      destruct (Horder i j a b Hij Hi Hj) as (pre & post & -> & Hpre & Hz).
      exists pre, (post ++ [x]). by rewrite <- app_assoc.
    + assert (j = length l) as ->.
      { apply lookup_lt_Some in Hj. rewrite length_app in Hj. simpl in Hj. lia. }
      rewrite lookup_app_l in Hi by done.
      rewrite list_lookup_middle in Hj by done. injection Hj as <-.
      exists all, []. split_and!; [done|done|].
      exists a. split; [|done].
      eapply first_seen_elem_of; [done|]. by eapply list_elem_of_lookup_2.
Qed.

End FirstSeen.

(** ** [Set] *)

Section SetOf.
Context {A : Type} `{EqDecision A}.
Implicit Types (l acc : list A).

Lemma Set_of_snoc l x : Set_of (l ++ [x]) = Set_add (Set_of l) x.
Proof. unfold Set_of. by rewrite foldl_snoc. Qed.

Lemma Set_of_first_seen l : first_seen id l (Set_of l).
Proof.
  induction l as [|x l IH] using rev_ind; [apply first_seen_nil|].
  rewrite Set_of_snoc. unfold Set_add.
  destruct (decide (x ∈ Set_of l)) as [Hin|Hnot].
  - apply first_seen_snoc_old; [done|]. by rewrite list_fmap_id.
  - apply first_seen_snoc_new; [done|]. by rewrite list_fmap_id.
Qed.

Lemma Set_of_NoDup l : NoDup (Set_of l).
Proof.
  destruct (Set_of_first_seen l) as (Hnodup & _). by rewrite list_fmap_id in Hnodup.
Qed.

Lemma elem_of_Set_of l x : x ∈ Set_of l ↔ x ∈ l.
Proof.
  pose proof (first_seen_key_elem_of id l (Set_of l) x (Set_of_first_seen l)) as Hiff.
  rewrite !list_fmap_id in Hiff. by symmetry.
Qed.

Lemma foldl_Set_add_NoDup acc l :
  NoDup (acc ++ l) → foldl Set_add acc l = acc ++ l.
Proof.
  revert acc. induction l as [|x l IH]; intros acc Hnodup; simpl.
  - by rewrite app_nil_r.
  - replace (acc ++ x :: l) with ((acc ++ [x]) ++ l) in * by by rewrite <- app_assoc.
    unfold Set_add at 2. rewrite decide_False; [by apply IH|].
    apply NoDup_app in Hnodup as (Hnodup & _).
    apply NoDup_app in Hnodup as (_ & Hdisj & _).
    intros Hin. apply (Hdisj x Hin). by left.
Qed.

(** Deduplicating again after appending gives the same as deduplicating
    everything appended so far. *)
Lemma Set_of_app_Set_of l k : Set_of (Set_of l ++ k) = Set_of (l ++ k).
Proof.
  unfold Set_of at 1 3. rewrite !foldl_app. f_equal.
  apply (foldl_Set_add_NoDup []), Set_of_NoDup.
Qed.

End SetOf.

(** ** The stream protocol *)

(** C5, as the code has it: for every input text, [processLines] invokes
    [onChunk] exactly once per line that begins with the marker ['data: ']
    and whose remainder, trimmed, is not empty and is accepted by
    [JSON.parse], passing the parsed value, in line order; the value need
    not be an object.  Every other line (blank, unmarked, with an empty
    payload or one that [JSON.parse] rejects) produces no event. *)
Theorem processLines_one_event_per_parsed_line
    (JSON_parse : jstring → result JSON.t) (text : jstring)
    (w : world (list JSON.t)) :
  let run := processLines JSON_parse text record_value w in
  ui run.1 = ui w ++ omap (line_event JSON_parse) (split text LF)
  ∧ run.2 = Returns tt
  ∧ ∀ line value,
      line_event JSON_parse line = Some value
      ↔ startsWith line DATA = true
        ∧ trim (drop 6 line) ≠ []
        ∧ JSON_parse (trim (drop 6 line)) = Returns value.
Proof.
  cbv zeta. destruct (processLines_values JSON_parse text w) as [console' ->].
  split_and!; [done|done|]. apply line_event_Some.
Qed.

(** C5, as stated, fails: a line whose remainder parses, but not as an
    object, produces an event all the same.  The payloads [42], [null] and
    [[1]] are delivered to [onChunk]. *)
Lemma non_object_payloads_are_delivered :
  let text := js "data: 42" ++ [LF] ++ js "data: null" ++ [LF] ++ js "data: [1]" in
  let delivered :=
    ui (processLines sample_parse_value text record_value (empty_world [])).1 in
  sample_parse_value (js "42") = Returns (JSON.Number (js "42"))
  ∧ delivered = [JSON.Number (js "42"); JSON.Null; JSON.Array [JSON.Number (js "1")]]
  ∧ Forall (λ value, JSON.is_object value = false) delivered.
Proof.
  cbv zeta. split_and!; [reflexivity|vm_compute; reflexivity|].
  vm_compute (ui _). by repeat constructor.
Qed.

Example processLines_sample :
  ui (processLines sample_parse
        (js "data: " ++ answer_json (js "Hi") ++ [LF] ++ js ": ping" ++ [LF]
           ++ [LF] ++ js "data: " ++ [LF] ++ js "data:  " ++ answer_json (js "!") ++ [13%N])
        record_chunk (empty_world [])).1
  = [onChunk_call (answer_chunk (js "Hi")); onChunk_call (answer_chunk (js "!"))].
Proof. vm_compute. reflexivity. Qed.

(** C1: for every stream text and every way of splitting it into successive
    reads, [askQuestion] delivers to [onChunk] the same ordered sequence of
    parsed events as for the whole text in a single read: the events of all
    its lines, the last line included when no line feed ends it, and then
    calls [onComplete].  A line under way is kept in the buffer: after any
    number of reads, what has been delivered are the events of the lines
    completed so far (seen here on a stream that breaks at that point). *)
Theorem askQuestion_split_independent
    (net net' : network) (JSON_parse : jstring → result StreamChunk.t)
    (question text : jstring) (pieces : list jstring) (json json' : result unit)
    (w : world (list call)) :
  concat pieces = text →
  net_ask net (requests w) question
    = Resolves (Success json (Some (Stream pieces EndOfStream))) →
  net_ask net' (requests w) question
    = Resolves (Success json' (Some (Stream [text] EndOfStream))) →
  let calls n :=
    ui (askQuestion n JSON_parse question record_chunk
          (record_call onComplete_call) (λ e, record_call (onError_call e)) w).1 in
  calls net = calls net'
  ∧ calls net
    = ui w ++ (onChunk_call <$> parsed_events JSON_parse text) ++ [onComplete_call]
  ∧ ∀ broken json'' k e,
      net_ask broken (requests w) question
        = Resolves (Success json'' (Some (Stream (take k pieces) (ReadRejects e)))) →
      calls broken
      = ui w ++ (onChunk_call <$>
                   from_option (parsed_events JSON_parse) []
                     (before_last_LF (concat (take k pieces))))
             ++ [onError_call e].
Proof.
  intros Htext Hnet Hnet'. cbv zeta.
  destruct (askQuestion_recorded JSON_parse _ _ _ _ _ Hnet) as [c1 ->].
  destruct (askQuestion_recorded JSON_parse _ _ _ _ _ Hnet') as [c2 ->].
  cbn. rewrite app_nil_r, Htext. split_and!; [done|done|].
  intros broken json'' k e Hbroken.
  by destruct (askQuestion_recorded_rejects JSON_parse _ _ _ _ _ _ Hbroken) as [c3 ->].
Qed.

Lemma askQuestion_split_independent_witness :
  let calls n :=
    ui (askQuestion n sample_parse (js "Hello?") record_chunk
          (record_call onComplete_call) (λ e, record_call (onError_call e))
          (empty_world [])).1 in
  calls (sample_net (sample_stream sample_pieces EndOfStream))
    = calls (sample_net (sample_stream [sample_text] EndOfStream))
  ∧ calls (sample_net (sample_stream sample_pieces EndOfStream))
    = [] ++ (onChunk_call <$> parsed_events sample_parse sample_text)
         ++ [onComplete_call]
  ∧ calls (sample_net (sample_stream (take 3 sample_pieces) (ReadRejects network_error)))
    = [onChunk_call (answer_chunk (js "Hi")); onError_call network_error].
Proof.
  destruct (askQuestion_split_independent
              (sample_net (sample_stream sample_pieces EndOfStream))
              (sample_net (sample_stream [sample_text] EndOfStream))
              sample_parse (js "Hello?") sample_text sample_pieces
              (Throws (Error (js "not JSON"))) (Throws (Error (js "not JSON")))
              (empty_world []) eq_refl eq_refl eq_refl)
    as (Hsame & Hcalls & Hbroken).
  split_and!; [exact Hsame|exact Hcalls|].
  exact (Hbroken
           (sample_net (sample_stream (take 3 sample_pieces) (ReadRejects network_error)))
           (Throws (Error (js "not JSON"))) 3 network_error eq_refl).
Defined.

Example askQuestion_sample_calls :
  ui (askQuestion (sample_net (sample_stream sample_pieces EndOfStream))
        sample_parse (js "Hello?") record_chunk
        (record_call onComplete_call) (λ e, record_call (onError_call e))
        (empty_world [])).1
  = [onChunk_call (answer_chunk (js "Hi")); onChunk_call (answer_chunk (js "!"));
     onComplete_call].
Proof. vm_compute. reflexivity. Qed.

(** C9: [processLines] is total and lets no exception out, whatever the
    text and the callback; a line whose payload after ['data: '] is not
    valid JSON does not keep the well-formed lines after it, in the same
    read or in a later one, from being parsed and delivered. *)
Theorem processLines_contains_parse_errors
    (JSON_parse : jstring → result StreamChunk.t) :
  (∀ S text (onChunk : StreamChunk.t → M S unit) (w : world S),
      ∃ w', processLines JSON_parse text onChunk w = (w', Returns tt))
  ∧ (∀ before bad after e (w : world (list call)),
        LF ∉ bad →
        startsWith bad DATA = true →
        JSON_parse (trim (drop 6 bad)) = Throws e →
        ui (processLines JSON_parse (before ++ LF :: bad ++ LF :: after)
              record_chunk w).1
        = ui w ++ (onChunk_call <$> parsed_events JSON_parse before)
               ++ (onChunk_call <$> parsed_events JSON_parse after)
        ∧ ui (processLines JSON_parse (bad ++ LF :: after) record_chunk w).1
          = ui w ++ (onChunk_call <$> parsed_events JSON_parse after))
  ∧ (∀ net question json pieces before bad after e (w : world (list call)),
        LF ∉ bad →
        startsWith bad DATA = true →
        JSON_parse (trim (drop 6 bad)) = Throws e →
        concat pieces = before ++ LF :: bad ++ LF :: after →
        net_ask net (requests w) question
          = Resolves (Success json (Some (Stream pieces EndOfStream))) →
        ui (askQuestion net JSON_parse question record_chunk
              (record_call onComplete_call) (λ e, record_call (onError_call e)) w).1
        = ui w ++ (onChunk_call <$> parsed_events JSON_parse before)
               ++ (onChunk_call <$> parsed_events JSON_parse after)
               ++ [onComplete_call]).
Proof.
  assert (Hskip : ∀ before bad after e,
    LF ∉ bad → startsWith bad DATA = true →
    JSON_parse (trim (drop 6 bad)) = Throws e →
    parsed_events JSON_parse (before ++ LF :: bad ++ LF :: after)
    = parsed_events JSON_parse before ++ parsed_events JSON_parse after).
  { intros before bad after e Hline Hstart Hparse.
    rewrite !parsed_events_app, (parsed_events_line _ bad) by done.
    unfold line_event. rewrite Hstart, Hparse. by destruct (truthy _). }
  split_and!.
  - intros S text onChunk w. apply processLines_returns.
  - intros before bad after e w Hline Hstart Hparse. split.
    + edestruct processLines_recorded as [console' ->]. cbn.
      by rewrite (Hskip _ _ _ _ Hline Hstart Hparse), fmap_app.
    + edestruct processLines_recorded as [console' ->]. cbn.
      rewrite parsed_events_app, (parsed_events_line _ bad) by done.
      unfold line_event. rewrite Hstart, Hparse. by destruct (truthy _).
  - intros net question json pieces before bad after e w Hline Hstart Hparse Hcat Hnet.
    destruct (askQuestion_recorded JSON_parse _ _ _ _ _ Hnet) as [console' ->].
    cbn. rewrite Hcat, (Hskip _ _ _ _ Hline Hstart Hparse), fmap_app.
    by rewrite <- app_assoc.
Qed.

Lemma processLines_contains_parse_errors_witness :
  (∃ w', processLines sample_parse
           (sample_before ++ LF :: sample_bad ++ LF :: sample_after)
           (λ _, throw (Error (js "callback failed"))) (empty_world tt)
         = (w', Returns tt))
  ∧ ui (processLines sample_parse
          (sample_before ++ LF :: sample_bad ++ LF :: sample_after)
          record_chunk (empty_world [])).1
    = [] ++ (onChunk_call <$> parsed_events sample_parse sample_before)
         ++ (onChunk_call <$> parsed_events sample_parse sample_after)
  ∧ ui (askQuestion
          (sample_net (sample_stream
             [sample_before ++ LF :: sample_bad; LF :: sample_after] EndOfStream))
          sample_parse (js "Hello?") record_chunk
          (record_call onComplete_call) (λ e, record_call (onError_call e))
          (empty_world [])).1
    = [] ++ (onChunk_call <$> parsed_events sample_parse sample_before)
         ++ (onChunk_call <$> parsed_events sample_parse sample_after)
         ++ [onComplete_call].
Proof.
  destruct (processLines_contains_parse_errors sample_parse)
    as (Htotal & Hsame & Hlater).
  assert (Hline : LF ∉ sample_bad)
    by (apply (bool_decide_unpack _); vm_compute; exact I).
  split_and!.
  - apply Htotal.
  - exact (proj1 (Hsame sample_before sample_bad sample_after
                    (Error (js "Unexpected token")) (empty_world [])
                    Hline eq_refl eq_refl)).
  - exact (Hlater
             (sample_net (sample_stream
                [sample_before ++ LF :: sample_bad; LF :: sample_after] EndOfStream))
             (js "Hello?") (Throws (Error (js "not JSON")))
             [sample_before ++ LF :: sample_bad; LF :: sample_after]
             sample_before sample_bad sample_after
             (Error (js "Unexpected token")) (empty_world [])
             Hline eq_refl eq_refl eq_refl eq_refl).
Defined.

(** ** The chat state *)

Section ChatUpdates.
Implicit Types (m : Message.t) (c : StreamChunk.t) (st : ChatState.t).

Lemma update_message_id c m : Message.id (update_message c m) = Message.id m.
Proof.
  unfold update_message.
  destruct (StreamChunk.sources c), (StreamChunk.answer c) as [a|];
    try destruct (truthy a); done.
Qed.

Lemma update_message_role c m : Message.role (update_message c m) = Message.role m.
Proof.
  unfold update_message.
  destruct (StreamChunk.sources c), (StreamChunk.answer c) as [a|];
    try destruct (truthy a); done.
Qed.

Lemma update_message_content c m :
  Message.content (update_message c m) = Message.content m ++ answer_of c.
Proof.
  unfold update_message, answer_of.
  destruct (StreamChunk.sources c), (StreamChunk.answer c) as [[|x a]|];
    cbn; by rewrite ?app_nil_r.
Qed.

Lemma update_message_sources c m :
  Message.sources (update_message c m)
  = match StreamChunk.sources c with
    | Some chunk_sources =>
        Some (Set_of (default [] (Message.sources m) ++ chunk_sources))
    | None => Message.sources m
    end.
Proof.
  unfold update_message.
  destruct (StreamChunk.sources c), (StreamChunk.answer c) as [a|];
    try destruct (truthy a); done.
Qed.

Lemma after_events_id m events : Message.id (after_events m events) = Message.id m.
Proof.
  unfold after_events.
  revert m. induction events as [|c events IH]; intros m; simpl; [done|].
  by rewrite IH, update_message_id.
Qed.

Lemma after_events_role m events :
  Message.role (after_events m events) = Message.role m.
Proof.
  unfold after_events.
  revert m. induction events as [|c events IH]; intros m; simpl; [done|].
  by rewrite IH, update_message_role.
Qed.

Lemma after_events_content m events :
  Message.content (after_events m events)
  = Message.content m ++ concat (answer_of <$> events).
Proof.
  unfold after_events.
  revert m. induction events as [|c events IH]; intros m; simpl.
  - by rewrite app_nil_r.
  - by rewrite IH, update_message_content, <- app_assoc.
Qed.

Lemma after_events_sources m events l :
  Message.sources m = Some l → NoDup l →
  Message.sources (after_events m events)
  = Some (Set_of (l ++ concat (sources_of <$> events))).
Proof.
  unfold after_events.
  revert m l. induction events as [|c events IH]; intros m l Hm Hl; simpl.
  - rewrite app_nil_r, Hm. f_equal. symmetry.
    by apply (foldl_Set_add_NoDup []).
  - unfold sources_of at 1.
    pose proof (update_message_sources c m) as Hc. rewrite Hm in Hc.
    destruct (StreamChunk.sources c) as [chunk_sources|]; simpl in *.
    + rewrite (IH _ _ Hc) by apply Set_of_NoDup.
      by rewrite Set_of_app_Set_of, <- app_assoc.
    + by apply IH.
Qed.

Lemma chunk_update_messages aid c st :
  ChatState.messages (chunk_update aid c st)
  = (λ m, if bool_decide (Message.id m = aid) then update_message c m else m)
      <$> ChatState.messages st.
Proof. done. Qed.

Lemma process_events_messages aid events st :
  ChatState.messages (process_events aid events st)
  = (λ m, if bool_decide (Message.id m = aid) then after_events m events else m)
      <$> ChatState.messages st.
Proof.
  unfold process_events. revert st.
  induction events as [|c events IH]; intros st; simpl.
  - rewrite <- (list_fmap_id (ChatState.messages st)) at 1.
    apply list_fmap_ext. intros _ m _. by case_bool_decide.
  - rewrite IH, chunk_update_messages, <- list_fmap_compose.
    apply list_fmap_ext. intros _ m _. unfold compose.
    destruct (decide (Message.id m = aid)) as [Hid|Hid].
    + rewrite (bool_decide_eq_true_2 _ Hid).
      by rewrite bool_decide_eq_true_2 by by rewrite update_message_id.
    + by rewrite !(bool_decide_eq_false_2 _ Hid).
Qed.

Lemma process_events_flags aid events st :
  ChatState.isLoading (process_events aid events st) = ChatState.isLoading st
  ∧ ChatState.error (process_events aid events st) = ChatState.error st.
Proof.
  unfold process_events. revert st.
  induction events as [|c events IH]; intros st; simpl; [done|].
  by destruct (IH (chunk_update aid c st)) as [-> ->].
Qed.

(** The assistant's message, the last one that [sendMessage] appends,
    after a sequence of events. *)
Lemma assistant_message_after question fresh prev events :
  last (ChatState.messages
          (process_events (Fresh.assistantMsgId fresh) events
             (start_update question fresh prev)))
  = Some (after_events
            (Message.Build (Fresh.assistantMsgId fresh) [] assistant (Some [])
               (Fresh.assistantTime fresh))
            events).
Proof.
  rewrite process_events_messages. unfold start_update. cbn [ChatState.messages].
  rewrite fmap_app. cbn [fmap list_fmap]. cbn [Message.id].
  rewrite (bool_decide_eq_true_2 (Fresh.assistantMsgId fresh = _)) by done.
  match goal with
  | |- last (?l ++ [?u; ?a]) = _ =>
      change (l ++ [u; a]) with (l ++ [u] ++ [a]);
      by rewrite (app_assoc l [u] [a]), last_snoc
  end.
Qed.

End ChatUpdates.

(** ** [sendMessage] on a stream *)

Section SendMessage.
Variable net : network.
Variable JSON_parse : jstring → result StreamChunk.t.

(** The events that have been delivered when a read is rejected: those
    of the lines completed by then. *)
Lemma sendMessage_stream question fresh json body (w : world ChatState.t) :
  truthy (trim question) = true →
  net_ask net (requests w) question = Resolves (Success json (Some body)) →
  let aid := Fresh.assistantMsgId fresh in
  let st0 := start_update question fresh (ui w) in
  let text := concat (reads body) in
  ∃ console',
    sendMessage net JSON_parse question fresh w
    = (World
         match ending body with
         | EndOfStream =>
             complete_update
               (process_events aid (parsed_events JSON_parse text) st0)
         | ReadRejects e =>
             error_update e
               (process_events aid
                  (from_option (parsed_events JSON_parse) [] (before_last_LF text))
                  st0)
         end
         console' (requests w ++ [PostAsk question]), Returns tt).
Proof.
  intros Hq Hnet. cbv zeta. unfold sendMessage. rewrite Hq. cbn [negb].
  unfold bind at 1. cbn [setState]. unfold try_catch at 1.
  unfold askQuestion, try_catch. unfold bind at 1. unfold fetch.
  cbn [requests ui console]. rewrite Hnet.
  destruct body as [pieces [|e]]; cbn [reads ending].
  - rewrite read_loop_done. cbn [app]. unfold bind.
    edestruct (processLines_setState JSON_parse
                 (chunk_update (Fresh.assistantMsgId fresh))) as [console' ->].
    cbn. by eexists.
  - rewrite read_loop_rejects by apply not_elem_of_nil. cbn [app].
    unfold bind at 1.
    destruct (before_last_LF (concat pieces)) as [complete|]; cbn [from_option].
    + edestruct (processLines_setState JSON_parse
                 (chunk_update (Fresh.assistantMsgId fresh))) as [console' ->].
      cbn. by eexists.
    + cbn. by eexists.
Qed.

End SendMessage.

(** C2: for every finite sequence of stream events processed by the chat
    state update, the content of the assistant's message after the last
    event is the concatenation, in arrival order, of the answer payloads of
    the events of the sequence. *)
Theorem assistant_content_is_concatenation
    (question : jstring) (fresh : Fresh.t) (prev : ChatState.t)
    (events : list StreamChunk.t) :
  ∃ m,
    last (ChatState.messages
            (process_events (Fresh.assistantMsgId fresh) events
               (start_update question fresh prev))) = Some m
    ∧ Message.id m = Fresh.assistantMsgId fresh
    ∧ Message.role m = assistant
    ∧ Message.content m = concat (answer_of <$> events).
Proof.
  eexists. split; [apply assistant_message_after|].
  by rewrite after_events_id, after_events_role, after_events_content.
Qed.

(** C3: for every finite sequence of stream events processed by the chat
    state update, the sources of the assistant's message hold each source
    value at most once, in the order in which the values were first met,
    whatever the duplicates inside one sources event or across several. *)
Theorem assistant_sources_distinct_in_order
    (question : jstring) (fresh : Fresh.t) (prev : ChatState.t)
    (events : list StreamChunk.t) :
  let all := concat (sources_of <$> events) in
  ∃ m l,
    last (ChatState.messages
            (process_events (Fresh.assistantMsgId fresh) events
               (start_update question fresh prev))) = Some m
    ∧ Message.role m = assistant
    ∧ Message.sources m = Some l
    ∧ NoDup l
    ∧ (∀ s, s ∈ l ↔ s ∈ all)
    ∧ (∀ i j x y, i < j → l !! i = Some x → l !! j = Some y →
         ∃ pre post, all = pre ++ y :: post ∧ (y ∉ pre) ∧ x ∈ pre).
Proof.
  cbv zeta. eexists. exists (Set_of (concat (sources_of <$> events))).
  split; [apply assistant_message_after|]. split_and!.
  - by rewrite after_events_role.
  - by rewrite (after_events_sources _ _ []) by (done || constructor).
  - apply Set_of_NoDup.
  - intros s. apply elem_of_Set_of.
  - intros i j x y Hij Hi Hj.
    destruct (Set_of_first_seen (concat (sources_of <$> events)))
      as (_ & _ & _ & Horder).
    destruct (Horder i j x y Hij Hi Hj) as (pre & post & Hall & Hpre & z & Hz & Hzx).
    unfold id in Hzx. subst z.
    exists pre, post. split_and!; [done| |done].
    intros Hy. by apply (Hpre y Hy).
Qed.

(** C4: when the ask stream fails after answer events have been processed,
    the error callback leaves the messages as they were, the partial answer
    of the assistant included, and changes only [isLoading] and [error]. *)
Theorem error_keeps_partial_answer
    (net : network) (JSON_parse : jstring → result StreamChunk.t)
    (question : jstring) (fresh : Fresh.t) (json : result unit)
    (pieces : list jstring) (e : exn) (w : world ChatState.t) :
  truthy (trim question) = true →
  net_ask net (requests w) question
    = Resolves (Success json (Some (Stream pieces (ReadRejects e)))) →
  let delivered :=
    from_option (parsed_events JSON_parse) [] (before_last_LF (concat pieces)) in
  let before :=
    process_events (Fresh.assistantMsgId fresh) delivered
      (start_update question fresh (ui w)) in
  let final := ui (sendMessage net JSON_parse question fresh w).1 in
  final = error_update e before
  ∧ ChatState.messages final = ChatState.messages before
  ∧ ChatState.isLoading final = false
  ∧ ChatState.error final = Some (error_message e)
  ∧ (∃ m, last (ChatState.messages final) = Some m
          ∧ Message.role m = assistant
          ∧ Message.content m = concat (answer_of <$> delivered))
  ∧ (∀ st, ChatState.messages (error_update e st) = ChatState.messages st).
Proof.
  intros Hq Hnet. cbv zeta.
  destruct (sendMessage_stream net JSON_parse question fresh json _ w Hq Hnet)
    as [console' ->].
  cbn [fst ui ending reads]. split_and!; try done.
  eexists. cbn [error_update ChatState.messages].
  split; [apply assistant_message_after|].
  by rewrite after_events_role, after_events_content.
Qed.

Lemma error_keeps_partial_answer_witness :
  let final :=
    ui (sendMessage (sample_net (sample_stream broken_pieces (ReadRejects network_error)))
          sample_parse (js "Hello?") sample_fresh (empty_world sample_chat)).1 in
  ChatState.isLoading final = false
  ∧ ChatState.error final = Some (js "network error")
  ∧ ∃ m, last (ChatState.messages final) = Some m
         ∧ Message.role m = assistant
         ∧ Message.content m = js "Hi".
Proof.
  destruct (error_keeps_partial_answer
              (sample_net (sample_stream broken_pieces (ReadRejects network_error)))
              sample_parse (js "Hello?") sample_fresh
              (Throws (Error (js "not JSON"))) broken_pieces network_error
              (empty_world sample_chat) eq_refl eq_refl)
    as (_ & _ & Hloading & Herror & (m & Hlast & Hrole & Hcontent) & _).
  split_and!; [exact Hloading|exact Herror|].
  exists m. split_and!; [exact Hlast|exact Hrole|exact Hcontent].
Defined.

(** C10: [sendMessage] with an empty or whitespace-only question does
    nothing: the chat state (messages, [isLoading], [error]) is unchanged
    and no request is sent. *)
Theorem blank_question_is_noop
    (net : network) (JSON_parse : jstring → result StreamChunk.t)
    (question : jstring) (fresh : Fresh.t) (w : world ChatState.t) :
  blank question →
  sendMessage net JSON_parse question fresh w = (w, Returns tt)
  ∧ ui (sendMessage net JSON_parse question fresh w).1 = ui w
  ∧ requests (sendMessage net JSON_parse question fresh w).1 = requests w.
Proof.
  intros Hblank. apply trim_blank in Hblank.
  unfold sendMessage. by rewrite Hblank.
Qed.

Lemma blank_question_is_noop_witness :
  let run :=
    sendMessage (sample_net (sample_stream sample_pieces EndOfStream)) sample_parse
      [32; 9; 10; 160]%N sample_fresh (empty_world sample_chat) in
  run = (empty_world sample_chat, Returns tt)
  ∧ ui run.1 = sample_chat
  ∧ requests run.1 = [].
Proof.
  apply (blank_question_is_noop
           (sample_net (sample_stream sample_pieces EndOfStream)) sample_parse
           [32; 9; 10; 160]%N sample_fresh (empty_world sample_chat)).
  unfold blank. repeat constructor.
Defined.

Example sendMessage_sample :
  ui (sendMessage (sample_net (sample_stream sample_pieces EndOfStream)) sample_parse
        (js "Hello?") sample_fresh (empty_world sample_chat)).1
  = ChatState.Build
      [Message.Build (js "msg_1_a") (js "Hello?") user None 1;
       Message.Build (js "msg_1_b") (js "Hi!") assistant (Some []) 1]
      false None.
Proof. vm_compute. reflexivity. Qed.

(** ** [handleUpload] *)

Section Upload.
Import UploadState.
Variable net : network.
Variable onUploadSuccess : option (M UploadState.t unit).
Implicit Types w : world UploadState.t.

Lemma ingest_files_succeed source files responses total w :
  all_ingested net (requests w) source files responses →
  ingest_files net files source total w
  = (World (ui w) (console w) (requests w ++ (ingest_request source <$> files)),
     Returns (total + total_chunks responses)%N).
Proof.
  revert responses total w.
  induction files as [|file files IH]; intros [|response responses] total w Hall;
    try done.
  - cbn. rewrite app_nil_r, N.add_0_r. by destruct w.
  - destruct Hall as [[body Hnet] Hall].
    cbn [ingest_files]. unfold bind at 1, ingestFile.
    unfold bind at 1, fetch.
    fold (form_source source file). rewrite Hnet. cbn [of_result].
    rewrite (IH responses) by done. cbn.
    rewrite <- app_assoc. do 2 f_equal. unfold total_chunks. cbn. lia.
Qed.

Lemma ingest_files_fail source done failing rest responses e total w :
  all_ingested net (requests w) source done responses →
  ingest_fails net (requests w ++ (ingest_request source <$> done)) source failing e →
  ingest_files net (done ++ failing :: rest) source total w
  = (World (ui w) (console w)
       (requests w ++ (ingest_request source <$> done ++ [failing])),
     Throws e).
Proof.
  revert responses total w.
  induction done as [|file done IH]; intros [|response responses] total w Hall Hfail;
    try done.
  - cbn [fmap list_fmap app] in *. rewrite app_nil_r in Hfail.
    cbn [ingest_files]. unfold bind at 1, ingestFile.
    unfold bind at 1, fetch. fold (form_source source failing).
    unfold ingest_fails in Hfail.
    destruct (net_ingest_file net (requests w) failing (form_source source failing))
      as [e'|[[r|e'] body|status errorData]]; try done; by subst.
  - destruct Hall as [[body Hnet] Hall].
    cbn [app ingest_files]. unfold bind at 1, ingestFile.
    unfold bind at 1, fetch.
    fold (form_source source file). rewrite Hnet. cbn [of_result].
    rewrite (IH responses); cbn [requests ui console].
    + by rewrite <- app_assoc.
    + done.
    + by rewrite <- app_assoc.
Qed.

Lemma ingest_file_requests_app a b :
  ingest_file_requests (a ++ b) = ingest_file_requests a ++ ingest_file_requests b.
Proof. apply List.filter_app. Qed.

Lemma ingest_file_requests_own source (files : list File.t) :
  ingest_file_requests (ingest_request source <$> files) = ingest_request source <$> files.
Proof. induction files as [|file files IH]; cbn; [done|]. by f_equal. Qed.

Lemma all_ingested_length sent source files responses :
  all_ingested net sent source files responses → length responses = length files.
Proof.
  revert sent responses.
  induction files as [|file files IH]; intros sent [|response responses] Hall;
    try done.
  destruct Hall as [_ Hall]. cbn. f_equal. by eapply IH.
Qed.

End Upload.

Lemma handleUpload_blank_text
    (net : network) (onUploadSuccess : option (M UploadState.t unit))
    (w : world UploadState.t) :
  UploadState.activeTab (ui w) = text_tab →
  blank (UploadState.text (ui w)) ∨ blank (UploadState.source (ui w)) →
  handleUpload net onUploadSuccess w
  = (World
       (UploadState.Build text_tab (UploadState.text (ui w))
          (UploadState.source (ui w)) (UploadState.files (ui w))
          (UploadState.isUploading (ui w))
          (Some (error, js "Please provide both text and source name"))
          (UploadState.fileInput (ui w)))
       (console w) (requests w),
     Returns tt).
Proof.
  intros Htab Hblank.
  assert (Hcheck : negb (truthy (trim (UploadState.text (ui w))))
                   || negb (truthy (trim (UploadState.source (ui w)))) = true).
  { destruct Hblank as [Hb|Hb]; apply trim_blank in Hb; rewrite Hb; cbn;
      [done|apply orb_true_r]. }
  unfold handleUpload. unfold bind at 1. unfold getState. cbv beta iota zeta.
  rewrite Htab, Hcheck. unfold setMessage, setState. by rewrite Htab.
Qed.

(** C6, as the code has it: for every text-mode upload where the text or
    the source name is empty or whitespace-only, [handleUpload] sets the one
    fixed validation message, sends no request and leaves the text and the
    source as entered (and everything else too). *)
Theorem blank_text_upload_is_refused
    (net : network) (onUploadSuccess : option (M UploadState.t unit))
    (w : world UploadState.t) :
  UploadState.activeTab (ui w) = text_tab →
  blank (UploadState.text (ui w)) ∨ blank (UploadState.source (ui w)) →
  let st := ui w in
  let run := handleUpload net onUploadSuccess w in
  run.2 = Returns tt
  ∧ UploadState.message (ui run.1)
    = Some (error, js "Please provide both text and source name")
  ∧ requests run.1 = requests w
  ∧ UploadState.text (ui run.1) = UploadState.text st
  ∧ UploadState.source (ui run.1) = UploadState.source st
  ∧ ui run.1
    = UploadState.Build text_tab (UploadState.text st) (UploadState.source st)
        (UploadState.files st) (UploadState.isUploading st)
        (Some (error, js "Please provide both text and source name"))
        (UploadState.fileInput st)
  ∧ console run.1 = console w.
Proof.
  intros Htab Hblank. cbv zeta.
  by rewrite (handleUpload_blank_text net onUploadSuccess w Htab Hblank).
Qed.

Lemma blank_text_upload_is_refused_witness :
  let run :=
    handleUpload upload_net None (empty_world (text_form (js "The sky is blue.") (js " "))) in
  run.2 = Returns tt
  ∧ UploadState.message (ui run.1)
    = Some (error, js "Please provide both text and source name")
  ∧ requests run.1 = []
  ∧ UploadState.text (ui run.1) = js "The sky is blue."
  ∧ UploadState.source (ui run.1) = js " ".
Proof.
  destruct (blank_text_upload_is_refused upload_net None
              (empty_world (text_form (js "The sky is blue.") (js " "))) eq_refl)
    as (Hrun & Hmessage & Hsent & Htext & Hsource & _).
  { right. unfold blank. cbn. repeat constructor. }
  split_and!; [exact Hrun|exact Hmessage|exact Hsent|exact Htext|exact Hsource].
Defined.

(** C6, as stated, fails: the message does not identify the missing input.
    An upload with no text and one with no source name get the same
    message, so nothing read off the message tells the two apart. *)
Lemma validation_message_same_for_both_inputs :
  let no_text :=
    handleUpload upload_net None (empty_world (text_form (js "") (js "facts.txt"))) in
  let no_source :=
    handleUpload upload_net None (empty_world (text_form (js "The sky is blue.") (js ""))) in
  shown_text (ui no_text.1) = shown_text (ui no_source.1)
  ∧ ¬ ∃ missing : jstring → input,
        missing (shown_text (ui no_text.1)) = text_input
        ∧ missing (shown_text (ui no_source.1)) = source_input.
Proof.
  cbv zeta. split; [reflexivity|].
  intros (missing & Htext & Hsource).
  change (shown_text _) with (js "Please provide both text and source name") in Htext, Hsource.
  congruence.
Qed.

Section FilesUpload.
Import UploadState.
Variable net : network.
Variable onUploadSuccess : option (M UploadState.t unit).
Implicit Types w : world UploadState.t.

Lemma handleUpload_files_succeed responses w :
  callback_frames onUploadSuccess →
  activeTab (ui w) = file_tab →
  files (ui w) ≠ [] →
  all_ingested net (requests w) (source (ui w)) (files (ui w)) responses →
  ∃ logged sent,
    handleUpload net onUploadSuccess w
    = (World
         (Build file_tab (text (ui w)) (source (ui w)) [] false
            (Some (success,
                   files_success (total_chunks responses) (length (files (ui w)))))
            (match fileInput (ui w) with Some _ => Some [] | None => None end))
         (console w ++ logged)
         (requests w ++ (ingest_request (source (ui w)) <$> files (ui w)) ++ sent),
       Returns tt)
    ∧ ingest_file_requests sent = [].
Proof.
  intros Hcb Htab Hfiles Hall. destruct w as [[tab txt src fls up msg inp] logged sent].
  cbn [ui requests console activeTab text source files fileInput] in *. subst tab.
  unfold handleUpload. unfold bind at 1. unfold getState.
  cbn [ui activeTab text source files]. cbv zeta.
  rewrite bool_decide_eq_false_2 by by destruct fls.
  unfold bind at 1. unfold setIsUploading at 1. cbn [setState].
  unfold bind at 1. unfold setMessage at 1.
  cbn [setState ui console requests activeTab text source files isUploading
       message fileInput].
  unfold try_finally, try_catch. unfold bind at 1. unfold bind at 1.
  rewrite (ingest_files_succeed _ _ _ responses) by done.
  cbn [ui console requests]. rewrite N.add_0_l.
  unfold bind, setMessage, setFiles, clearFileInput, setIsUploading, setState.
  cbn [ui console requests activeTab text source files isUploading message fileInput].
  destruct onUploadSuccess as [cb|].
  - edestruct (Hcb cb eq_refl) as (logged' & sent' & -> & Hsent).
    cbn [ui console requests activeTab text source files isUploading message fileInput].
    exists logged', sent'. by rewrite <- app_assoc.
  - exists [], []. cbn. by rewrite !app_nil_r.
Qed.

Lemma handleUpload_files_fail done failing rest responses e w :
  activeTab (ui w) = file_tab →
  files (ui w) = done ++ failing :: rest →
  all_ingested net (requests w) (source (ui w)) done responses →
  ingest_fails net (requests w ++ (ingest_request (source (ui w)) <$> done))
    (source (ui w)) failing e →
  handleUpload net onUploadSuccess w
  = (World
       (Build file_tab (text (ui w)) (source (ui w)) (files (ui w)) false
          (Some (error, error_message e)) (fileInput (ui w)))
       (console w ++ [console_error [Text (js "Upload error:"); Thrown e]])
       (requests w ++ (ingest_request (source (ui w)) <$> done ++ [failing])),
     Returns tt).
Proof.
  intros Htab Hfiles Hall Hfail.
  destruct w as [[tab txt src fls up msg inp] logged sent].
  cbn [ui requests console activeTab text source files fileInput] in *. subst tab fls.
  unfold handleUpload. unfold bind at 1. unfold getState.
  cbn [ui activeTab text source files]. cbv zeta.
  rewrite bool_decide_eq_false_2 by by destruct done.
  unfold bind at 1. unfold setIsUploading at 1. cbn [setState].
  unfold bind at 1. unfold setMessage at 1.
  cbn [setState ui console requests activeTab text source files isUploading
       message fileInput].
  unfold try_finally, try_catch. unfold bind at 1. unfold bind at 1.
  rewrite (ingest_files_fail _ _ _ _ _ responses e) by done.
  cbn [ui console requests].
  unfold bind, log, setMessage, setIsUploading, setState.
  by cbn [ui console requests activeTab text source files isUploading message fileInput].
Qed.

End FilesUpload.

(** C7, as the code has it: when files are selected, [handleUpload] calls
    [ingestFile] once per file, in order, as long as the calls succeed.
    When all of them succeed (and the parent's callback returns), the
    success message reports the sum of the [chunks_processed] of the
    responses and the number of files, provided that sum is below [2^53],
    so that the additions of the code are exact.  When a call fails, the
    files after it are not sent and the error is reported in place of a
    total. *)
Theorem files_are_ingested_until_a_call_fails
    (net : network) (onUploadSuccess : option (M UploadState.t unit))
    (w : world UploadState.t) :
  UploadState.activeTab (ui w) = file_tab →
  UploadState.files (ui w) ≠ [] →
  let st := ui w in
  let source := UploadState.source st in
  let final := (handleUpload net onUploadSuccess w).1 in
  (∀ responses,
      callback_frames onUploadSuccess →
      all_ingested net (requests w) source (UploadState.files st) responses →
      (total_chunks responses < 2 ^ 53)%N →
      length responses = length (UploadState.files st)
      ∧ ingest_file_requests (requests final)
        = ingest_file_requests (requests w)
            ++ (ingest_request source <$> UploadState.files st)
      ∧ UploadState.message (ui final)
        = Some (success,
                files_success (total_chunks responses)
                  (length (UploadState.files st)))
      ∧ UploadState.files (ui final) = []
      ∧ UploadState.isUploading (ui final) = false)
  ∧ (∀ done failing rest responses e,
        UploadState.files st = done ++ failing :: rest →
        all_ingested net (requests w) source done responses →
        ingest_fails net (requests w ++ (ingest_request source <$> done))
          source failing e →
        ingest_file_requests (requests final)
        = ingest_file_requests (requests w)
            ++ (ingest_request source <$> done ++ [failing])
        ∧ UploadState.message (ui final) = Some (error, error_message e)
        ∧ UploadState.files (ui final) = UploadState.files st
        ∧ UploadState.isUploading (ui final) = false).
Proof.
  intros Htab Hfiles. cbv zeta. split.
  - intros responses Hcb Hall _.
    destruct (handleUpload_files_succeed net onUploadSuccess responses w
                Hcb Htab Hfiles Hall) as (logged & sent & -> & Hsent).
    cbn [fst ui requests UploadState.message UploadState.files
         UploadState.isUploading].
    split_and!; try done.
    + by eapply all_ingested_length.
    + rewrite !ingest_file_requests_app, ingest_file_requests_own, Hsent.
      by rewrite app_nil_r.
  - intros done failing rest responses e Hsplit Hall Hfail.
    rewrite (handleUpload_files_fail net onUploadSuccess done failing rest
               responses e w Htab Hsplit Hall Hfail).
    cbn [fst ui requests UploadState.message UploadState.files
         UploadState.isUploading].
    split_and!; try done.
    by rewrite ingest_file_requests_app, ingest_file_requests_own.
Qed.

Lemma files_are_ingested_until_a_call_fails_witness :
  let final :=
    (handleUpload upload_net None (empty_world (files_form [notes_txt; facts_txt]))).1 in
  ingest_file_requests (requests final)
  = [PostIngestFile notes_txt (Some (js "notes.txt"));
     PostIngestFile facts_txt (Some (js "facts.txt"))]
  ∧ UploadState.message (ui final)
    = Some (success, js "Successfully processed 5 chunks from 2 file(s)")
  ∧ UploadState.files (ui final) = [].
Proof.
  destruct (files_are_ingested_until_a_call_fails upload_net None
              (empty_world (files_form [notes_txt; facts_txt])) eq_refl)
    as [Hok _].
  { discriminate. }
  destruct (Hok [IngestResponse.Build (js "success") 2 (js "notes.txt");
                 IngestResponse.Build (js "success") 3 (js "facts.txt")])
    as (_ & Hsent & Hmessage & Hfiles & _).
  { intros cb Hcb. discriminate Hcb. }
  { cbn. split; [by eexists|]. split; [by eexists|done]. }
  { reflexivity. }
  split_and!; [exact Hsent|exact Hmessage|exact Hfiles].
Defined.

(** C7, as stated, fails: with two files selected and the first refused,
    [handleUpload] makes one [ingestFile] call, not two; the second file is
    never sent and no total is reported. *)
Lemma second_file_not_sent_after_failure :
  let st := files_form [bad_pdf; notes_txt] in
  let final := (handleUpload upload_net None (empty_world st)).1 in
  length (UploadState.files st) = 2
  ∧ ingest_file_requests (requests final)
    = [PostIngestFile bad_pdf (Some (js "bad.pdf"))]
  ∧ length (ingest_file_requests (requests final)) ≠ length (UploadState.files st)
  ∧ UploadState.message (ui final) = Some (error, js "Could not read PDF").
Proof.
  cbv zeta. split_and!; [reflexivity|reflexivity|discriminate|reflexivity].
Qed.

(** ** [fetchDocs] *)

Section FetchDocs.
Implicit Types (docs uniqueDocs : list DocumentInfo.t) (seenSources : gset jstring).

(** The loop keeps [uniqueDocs] the first-seen list of what it has gone
    through and [seenSources] the set of its sources. *)
Lemma unique_docs_first_seen docs gone uniqueDocs seenSources :
  first_seen DocumentInfo.source gone uniqueDocs →
  (∀ s, s ∈ seenSources ↔ s ∈ DocumentInfo.source <$> uniqueDocs) →
  first_seen DocumentInfo.source (gone ++ docs)
    (unique_docs docs uniqueDocs seenSources).
Proof.
  revert gone uniqueDocs seenSources.
  induction docs as [|doc docs IH]; intros gone uniqueDocs seenSources Hseen Hset.
  - by rewrite app_nil_r.
  - cbn [unique_docs].
    replace (gone ++ doc :: docs) with ((gone ++ [doc]) ++ docs)
      by by rewrite <- app_assoc.
    destruct (decide (DocumentInfo.source doc ∈ seenSources)) as [Hin|Hnot].
    + apply IH; [|done]. apply first_seen_snoc_old; [done|]. by apply Hset.
    + apply IH.
      * apply first_seen_snoc_new; [done|]. by rewrite <- Hset.
      * intros s. rewrite elem_of_union, elem_of_singleton, fmap_app, elem_of_app.
        rewrite Hset. cbn. rewrite list_elem_of_singleton. done.
Qed.

Lemma fetchDocs_success net data body (w : world AppState.t) :
  net_documents net (requests w) = Resolves (Success (Returns data) body) →
  fetchDocs net w
  = (World
       (AppState.Build (AppState.view (ui w))
          (unique_docs (DocumentsResponse.documents data) [] ∅)
          (AppState.isDeleting (ui w)))
       (console w) (requests w ++ [GetDocuments]),
     Returns tt).
Proof.
  intros Hnet. unfold fetchDocs, try_catch, getDocuments, apiRequest, try_catch.
  unfold bind at 1. unfold bind at 1. unfold fetch. by rewrite Hnet.
Qed.

End FetchDocs.

(** C8: for every chunk-granular documents response, [fetchDocs] produces a
    document list with exactly one entry per distinct source value, namely
    the first entry with that source in the order of the response, the
    entries ordered by the first occurrence of their source. *)
Theorem fetchDocs_keeps_first_entry_per_source
    (net : network) (data : DocumentsResponse.t) (body : option stream)
    (w : world AppState.t) :
  net_documents net (requests w) = Resolves (Success (Returns data) body) →
  let docs := DocumentsResponse.documents data in
  let listed := AppState.documents (ui (fetchDocs net w).1) in
  NoDup (DocumentInfo.source <$> listed)
  ∧ (∀ doc, doc ∈ docs →
       ∃ entry, entry ∈ listed ∧ DocumentInfo.source entry = DocumentInfo.source doc)
  ∧ (∀ entry, entry ∈ listed →
       ∃ pre post, docs = pre ++ entry :: post
         ∧ ∀ doc, doc ∈ pre → DocumentInfo.source doc ≠ DocumentInfo.source entry)
  ∧ (∀ i j a b, i < j → listed !! i = Some a → listed !! j = Some b →
       ∃ pre post, docs = pre ++ b :: post
         ∧ (∀ doc, doc ∈ pre → DocumentInfo.source doc ≠ DocumentInfo.source b)
         ∧ ∃ doc, doc ∈ pre ∧ DocumentInfo.source doc = DocumentInfo.source a).
Proof.
  intros Hnet. cbv zeta. rewrite (fetchDocs_success net data body w Hnet).
  cbn [fst ui AppState.documents].
  apply (unique_docs_first_seen (DocumentsResponse.documents data) [] [] ∅).
  - apply first_seen_nil.
  - intros s. cbn. rewrite elem_of_empty, elem_of_nil. done.
Qed.

Lemma fetchDocs_keeps_first_entry_per_source_witness :
  let listed :=
    AppState.documents
      (ui (fetchDocs (documents_net (Resolves (Success (Returns sample_documents) None)))
             (empty_world sample_app)).1) in
  NoDup (DocumentInfo.source <$> listed)
  ∧ listed = [DocumentInfo.Build 1 (js "facts.txt") (js "The sky is blue.");
              DocumentInfo.Build 2 (js "notes.txt") (js "hi")].
Proof.
  split; [|reflexivity].
  exact (proj1 (fetchDocs_keeps_first_entry_per_source
                  (documents_net (Resolves (Success (Returns sample_documents) None)))
                  sample_documents None (empty_world sample_app) eq_refl)).
Defined.

(** * Further properties *)

(** ** [askQuestion]: every outcome *)

Section AskOutcomes.
Variable net : network.
Variable JSON_parse : jstring → result StreamChunk.t.
Implicit Types w : world (list call).

(** Before any read: a rejected [fetch], a response that is not ok, a
    response without body. *)
Lemma askQuestion_recorded_early question w :
  askQuestion net JSON_parse question record_chunk
    (record_call onComplete_call) (λ e, record_call (onError_call e)) w
  = match net_ask net (requests w) question with
    | Rejects e =>
        (World (ui w ++ [onError_call e]) (console w)
           (requests w ++ [PostAsk question]), Returns tt)
    | Resolves (Failure status _) =>
        (World (ui w ++ [onError_call (http_error status)]) (console w)
           (requests w ++ [PostAsk question]), Returns tt)
    | Resolves (Success _ None) =>
        (World (ui w ++ [onError_call (Error (js "No response body"))]) (console w)
           (requests w ++ [PostAsk question]), Returns tt)
    | Resolves (Success _ (Some _)) =>
        askQuestion net JSON_parse question record_chunk
          (record_call onComplete_call) (λ e, record_call (onError_call e)) w
    end.
Proof.
  destruct (net_ask net (requests w) question) as [e|[j [body|]|status ed]] eqn:Hnet;
    try done;
    unfold askQuestion, try_catch; unfold bind at 1; unfold fetch; by rewrite Hnet.
Qed.




End AskOutcomes.


Example askQuestion_onComplete_throws :
  askQuestion (sample_net (sample_stream [sample_text] EndOfStream)) sample_parse
    (js "Hello?") record_chunk
    (record_call onComplete_call >> throw (Error (js "boom")))
    (λ e, record_call (onError_call e)) (empty_world [])
  = (World [onChunk_call (answer_chunk (js "Hi")); onChunk_call (answer_chunk (js "!"));
            onComplete_call; onError_call (Error (js "boom"))]
       [] [PostAsk (js "Hello?")],
     Returns tt).
Proof. vm_compute. reflexivity. Qed.

(** X2: when the request fails before any read, [askQuestion] calls
    [onError] alone: with the rejection of [fetch]; for a response that is
    not ok with the message [HTTP error! status: N], whatever detail the
    body carries; for a response without body with [No response body]. *)
Theorem askQuestion_early_failures
    (net : network) (JSON_parse : jstring → result StreamChunk.t)
    (question : jstring) (w : world (list call)) :
  let calls :=
    ui (askQuestion net JSON_parse question record_chunk
          (record_call onComplete_call) (λ e, record_call (onError_call e)) w).1 in
  match net_ask net (requests w) question with
  | Rejects e => calls = ui w ++ [onError_call e]
  | Resolves (Failure status errorData) =>
      calls = ui w ++ [onError_call
                         (Error (js "HTTP error! status: " ++ of_number status))]
  | Resolves (Success _ None) =>
      calls = ui w ++ [onError_call (Error (js "No response body"))]
  | Resolves (Success _ (Some _)) => True
  end.
Proof.
  cbv zeta. rewrite askQuestion_recorded_early.
  by destruct (net_ask net (requests w) question) as [e|[j [body|]|status ed]].
Qed.

Example askQuestion_not_found :
  ui (askQuestion (sample_net (Resolves (Failure 404 (Returns (detail_body (js "No such route"))))))
        sample_parse (js "Hello?") record_chunk
        (record_call onComplete_call) (λ e, record_call (onError_call e))
        (empty_world [])).1
  = [onError_call (Error (js "HTTP error! status: 404"))].
Proof. vm_compute. reflexivity. Qed.

(** ** [sendMessage]: every outcome *)

Lemma not_blank_truthy (s : jstring) : ¬ blank s → truthy (trim s) = true.
Proof.
  intros Hs. destruct (trim s) eqn:Htrim; [|done].
  destruct Hs. by apply trim_blank.
Qed.

Lemma update_message_timestamp c m :
  Message.timestamp (update_message c m) = Message.timestamp m.
Proof.
  unfold update_message.
  destruct (StreamChunk.sources c), (StreamChunk.answer c) as [a|];
    try destruct (truthy a); done.
Qed.

Lemma after_events_timestamp m events :
  Message.timestamp (after_events m events) = Message.timestamp m.
Proof.
  unfold after_events.
  revert m. induction events as [|c events IH]; intros m; simpl; [done|].
  by rewrite IH, update_message_timestamp.
Qed.

(** The assistant's message of [sendMessage] after a sequence of events,
    field by field. *)
Lemma assistant_after_events aid time events :
  after_events (Message.Build aid [] assistant (Some []) time) events
  = Message.Build aid (concat (answer_of <$> events)) assistant
      (Some (Set_of (concat (sources_of <$> events)))) time.
Proof.
  pose proof (after_events_id (Message.Build aid [] assistant (Some []) time) events).
  pose proof (after_events_role (Message.Build aid [] assistant (Some []) time) events).
  pose proof (after_events_content (Message.Build aid [] assistant (Some []) time) events).
  pose proof (after_events_timestamp (Message.Build aid [] assistant (Some []) time) events).
  pose proof (after_events_sources (Message.Build aid [] assistant (Some []) time)
                events [] eq_refl NoDup_nil_2).
  destruct (after_events _ events). simpl in *. by subst.
Qed.

Section SendMessageOutcomes.
Variable net : network.
Variable JSON_parse : jstring → result StreamChunk.t.
Implicit Types w : world ChatState.t.

(** The error [askQuestion] reports when the request fails before any
    read, if it does. *)
Lemma sendMessage_early question fresh w :
  truthy (trim question) = true →
  ∀ err,
    match net_ask net (requests w) question with
    | Rejects e => err = e
    | Resolves (Failure status _) => err = http_error status
    | Resolves (Success _ None) => err = Error (js "No response body")
    | Resolves (Success _ (Some _)) => False
    end →
    sendMessage net JSON_parse question fresh w
    = (World (error_update err (start_update question fresh (ui w)))
         (console w ++ [console_error [Text (js "Chat error:"); Thrown err]])
         (requests w ++ [PostAsk question]), Returns tt).
Proof.
  intros Hq err Hnet. unfold sendMessage. rewrite Hq. cbn [negb].
  unfold bind at 1. cbn [setState]. unfold try_catch at 1.
  unfold askQuestion, try_catch. unfold bind at 1. unfold fetch.
  cbn [requests ui console].
  destruct (net_ask net (requests w) question) as [e|[j [body|]|status ed]];
    try done; by subst.
Qed.

Lemma process_events_fresh aid events prev (tail : list Message.t) flag err :
  (∀ m, m ∈ prev → Message.id m ≠ aid) →
  ChatState.messages (process_events aid events (ChatState.Build (prev ++ tail) flag err))
  = prev ++ ChatState.messages (process_events aid events (ChatState.Build tail flag err)).
Proof.
  intros Hfresh. rewrite !process_events_messages. cbn [ChatState.messages].
  rewrite fmap_app. f_equal.
  rewrite <- (list_fmap_id prev) at 2. apply list_fmap_ext.
  intros i m Hm. rewrite bool_decide_eq_false_2; [done|].
  apply Hfresh. by eapply list_elem_of_lookup_2.
Qed.

End SendMessageOutcomes.

(** The events of a text whose payloads are chunks of the declared type
    are the parsed values read at that type. *)
Lemma chunks_as_declared_events parse JSON_parse text :
  chunks_as_declared parse JSON_parse text →
  parsed_events JSON_parse text = omap as_StreamChunk (parsed_events parse text).
Proof.
  unfold chunks_as_declared, parsed_events.
  induction 1 as [|line lines Hline _ IH]; [done|].
  cbn [omap list_omap]. fold (omap (line_event JSON_parse) lines).
  fold (omap (line_event parse) lines). rewrite IH. clear IH.
  unfold line_event. destruct (startsWith line DATA); [|done].
  destruct (trim (drop 6 line)) as [|c payload] eqn:Hpayload; [done|].
  cbn [truthy]. specialize (Hline eq_refl ltac:(done)).
  destruct (parse (c :: payload)) as [value|e].
  - destruct Hline as (chunk & Hchunk & ->). cbn [omap list_omap]. by rewrite Hchunk.
  - by rewrite Hline.
Qed.

(** X3: on a stream that ends normally and whose payloads are chunks of
    the declared type, with fresh message ids, a non-blank question leaves
    the chat with the earlier messages, the user's message holding the
    question as typed, and the assistant's message holding the
    concatenated answers and the distinct sources of the parsed values;
    [isLoading] is false and [error] is null, one request was sent. *)
Theorem sendMessage_completed
    (net : network) (parse : jstring → result JSON.t)
    (JSON_parse : jstring → result StreamChunk.t)
    (question : jstring) (fresh : Fresh.t) (json : result unit)
    (pieces : list jstring) (w : world ChatState.t) :
  ¬ blank question →
  (∀ m, m ∈ ChatState.messages (ui w) → Message.id m ≠ Fresh.assistantMsgId fresh) →
  Fresh.userMsgId fresh ≠ Fresh.assistantMsgId fresh →
  net_ask net (requests w) question
    = Resolves (Success json (Some (Stream pieces EndOfStream))) →
  chunks_as_declared parse JSON_parse (concat pieces) →
  let events := omap as_StreamChunk (parsed_events parse (concat pieces)) in
  let run := sendMessage net JSON_parse question fresh w in
  run.2 = Returns tt
  ∧ requests run.1 = requests w ++ [PostAsk question]
  ∧ ui run.1
    = ChatState.Build
        (ChatState.messages (ui w)
           ++ [Message.Build (Fresh.userMsgId fresh) question user None
                 (Fresh.userTime fresh);
               Message.Build (Fresh.assistantMsgId fresh)
                 (concat (answer_of <$> events)) assistant
                 (Some (Set_of (concat (sources_of <$> events))))
                 (Fresh.assistantTime fresh)])
        false None.
Proof.
  intros Hq Hfresh Hids Hnet Hdeclared. cbv zeta.
  rewrite <- (chunks_as_declared_events _ _ _ Hdeclared).
  destruct (sendMessage_stream net JSON_parse question fresh json _ w
              (not_blank_truthy _ Hq) Hnet) as [logged ->].
  cbn [fst snd ui requests ending reads]. split_and!; [done|done|].
  unfold complete_update.
  destruct (process_events_flags (Fresh.assistantMsgId fresh)
              (parsed_events JSON_parse (concat pieces))
              (start_update question fresh (ui w))) as [_ ->].
  unfold start_update. cbn [ChatState.error]. f_equal.
  rewrite process_events_fresh by done.
  rewrite process_events_messages. cbn [ChatState.messages fmap list_fmap Message.id].
  rewrite bool_decide_eq_false_2 by done.
  rewrite bool_decide_eq_true_2 by done.
  by rewrite assistant_after_events.
Qed.

Lemma sample_chunks_as_declared :
  chunks_as_declared sample_parse_value sample_parse (concat sample_pieces).
Proof.
  unfold chunks_as_declared.
  repeat (apply Forall_cons; split;
          [intros _ _; vm_compute; eexists; split; reflexivity|]).
  apply Forall_nil_2.
Defined.

Lemma sendMessage_completed_witness :
  let run :=
    sendMessage (sample_net (sample_stream sample_pieces EndOfStream)) sample_parse
      (js " Hello? ") sample_fresh (empty_world sample_chat) in
  run.2 = Returns tt
  ∧ requests run.1 = [PostAsk (js " Hello? ")]
  ∧ ui run.1
    = ChatState.Build
        [Message.Build (js "msg_1_a") (js " Hello? ") user None 1;
         Message.Build (js "msg_1_b") (js "Hi!") assistant (Some []) 1]
        false None.
Proof.
  apply (sendMessage_completed
           (sample_net (sample_stream sample_pieces EndOfStream))
           sample_parse_value sample_parse
           (js " Hello? ") sample_fresh (Throws (Error (js "not JSON")))
           sample_pieces (empty_world sample_chat)).
  - intros Hblank. apply trim_blank in Hblank. discriminate Hblank.
  - intros m Hm. by apply elem_of_nil in Hm.
  - discriminate.
  - reflexivity.
  - exact sample_chunks_as_declared.
Defined.

(** X4: when the request fails before any read (rejected [fetch],
    response not ok, no body), a non-blank question still leaves its two
    messages in the chat, the assistant's one empty, with [isLoading] false
    and [error] set to the message of the failure. *)
Theorem sendMessage_early_failure
    (net : network) (JSON_parse : jstring → result StreamChunk.t)
    (question : jstring) (fresh : Fresh.t) (w : world ChatState.t) :
  ¬ blank question →
  let final := ui (sendMessage net JSON_parse question fresh w).1 in
  let failed text :=
    final
    = ChatState.Build
        (ChatState.messages (ui w)
           ++ [Message.Build (Fresh.userMsgId fresh) question user None
                 (Fresh.userTime fresh);
               Message.Build (Fresh.assistantMsgId fresh) [] assistant (Some [])
                 (Fresh.assistantTime fresh)])
        false (Some text) in
  match net_ask net (requests w) question with
  | Rejects e => failed (error_message e)
  | Resolves (Failure status _) =>
      failed (js "HTTP error! status: " ++ of_number status)
  | Resolves (Success _ None) => failed (js "No response body")
  | Resolves (Success _ (Some _)) => True
  end.
Proof.
  intros Hq. cbv zeta. apply not_blank_truthy in Hq.
  pose proof (sendMessage_early net JSON_parse question fresh w Hq) as Hrun.
  destruct (net_ask net (requests w) question) as [e|[j [body|]|status ed]].
  - by rewrite (Hrun e eq_refl).
  - done.
  - by rewrite (Hrun _ eq_refl).
  - by rewrite (Hrun _ eq_refl).
Qed.

Lemma sendMessage_early_failure_witness :
  ui (sendMessage (sample_net (Resolves (Failure 503 (Throws (Error (js "not JSON"))))))
        sample_parse (js "Hello?") sample_fresh (empty_world sample_chat)).1
  = ChatState.Build
      [Message.Build (js "msg_1_a") (js "Hello?") user None 1;
       Message.Build (js "msg_1_b") [] assistant (Some []) 1]
      false (Some (js "HTTP error! status: 503")).
Proof.
  apply (sendMessage_early_failure
           (sample_net (Resolves (Failure 503 (Throws (Error (js "not JSON"))))))
           sample_parse (js "Hello?") sample_fresh (empty_world sample_chat)).
  intros Hblank. apply trim_blank in Hblank. discriminate Hblank.
Defined.

Lemma sendMessage_settles
    (net : network) (JSON_parse : jstring → result StreamChunk.t)
    (question : jstring) (fresh : Fresh.t) (w : world ChatState.t) :
  truthy (trim question) = true →
  ∃ st logged,
    sendMessage net JSON_parse question fresh w
    = (World st logged (requests w ++ [PostAsk question]), Returns tt)
    ∧ ChatState.isLoading st = false
    ∧ length (ChatState.messages st) = length (ChatState.messages (ui w)) + 2.
Proof.
  intros Hq.
  assert (Hlen : ∀ events,
    length (ChatState.messages
              (process_events (Fresh.assistantMsgId fresh) events
                 (start_update question fresh (ui w))))
    = length (ChatState.messages (ui w)) + 2).
  { intros events. rewrite process_events_messages, length_fmap.
    unfold start_update. cbn [ChatState.messages]. by rewrite length_app. }
  destruct (net_ask net (requests w) question)
    as [e|[j [body|]|status ed]] eqn:Hnet.
  - rewrite (sendMessage_early net JSON_parse question fresh w Hq e)
      by by rewrite Hnet.
    eexists _, _. split; [done|]. cbn. split; [done|]. by rewrite length_app.
  - destruct (sendMessage_stream net JSON_parse question fresh j body w Hq Hnet)
      as [logged ->].
    eexists _, _. split; [done|].
    destruct (ending body); cbn; (split; [done|apply Hlen]).
  - rewrite (sendMessage_early net JSON_parse question fresh w Hq
               (Error (js "No response body"))) by by rewrite Hnet.
    eexists _, _. split; [done|]. cbn. split; [done|]. by rewrite length_app.
  - rewrite (sendMessage_early net JSON_parse question fresh w Hq (http_error status))
      by by rewrite Hnet.
    eexists _, _. split; [done|]. cbn. split; [done|]. by rewrite length_app.
Qed.

(** X5: however the request ends on a body of finitely many reads (a
    rejected [fetch], a response that is not ok or has no body, a stream
    that ends or breaks), and provided the payloads of the stream are
    chunks of the declared type, [sendMessage] with a non-blank question
    returns normally, sends exactly one request, adds exactly two messages
    and ends with [isLoading] false. *)
Theorem sendMessage_always_settles
    (net : network) (parse : jstring → result JSON.t)
    (JSON_parse : jstring → result StreamChunk.t)
    (question : jstring) (fresh : Fresh.t) (w : world ChatState.t) :
  ¬ blank question →
  (∀ json body,
      net_ask net (requests w) question = Resolves (Success json (Some body)) →
      chunks_as_declared parse JSON_parse (concat (reads body))) →
  let run := sendMessage net JSON_parse question fresh w in
  run.2 = Returns tt
  ∧ requests run.1 = requests w ++ [PostAsk question]
  ∧ ChatState.isLoading (ui run.1) = false
  ∧ length (ChatState.messages (ui run.1))
    = length (ChatState.messages (ui w)) + 2.
Proof.
  intros Hq _. cbv zeta. apply not_blank_truthy in Hq.
  destruct (sendMessage_settles net JSON_parse question fresh w Hq)
    as (st & logged & -> & Hloading & Hlen).
  done.
Qed.

Lemma sendMessage_always_settles_witness :
  let run :=
    sendMessage (sample_net (sample_stream broken_pieces (ReadRejects network_error)))
      sample_parse (js "Hello?") sample_fresh (empty_world sample_chat) in
  run.2 = Returns tt
  ∧ requests run.1 = [] ++ [PostAsk (js "Hello?")]
  ∧ ChatState.isLoading (ui run.1) = false
  ∧ length (ChatState.messages (ui run.1)) = 0 + 2.
Proof.
  apply (sendMessage_always_settles
           (sample_net (sample_stream broken_pieces (ReadRejects network_error)))
           sample_parse_value sample_parse (js "Hello?") sample_fresh
           (empty_world sample_chat)).
  - intros Hblank. apply trim_blank in Hblank. discriminate Hblank.
  - intros json body [= <- <-]. unfold chunks_as_declared.
    repeat (apply Forall_cons; split;
            [intros _ _; vm_compute; first [eexists; split; reflexivity|reflexivity]|]).
    apply Forall_nil_2.
Defined.

(** ** What the chunk updates leave alone *)

Lemma update_message_nothing chunk m : carries_nothing chunk → update_message chunk m = m.
Proof.
  intros [Hsources Hanswer]. unfold update_message. rewrite Hsources.
  by destruct Hanswer as [-> | ->].
Qed.

Lemma chunk_update_nothing aid chunk st : carries_nothing chunk → chunk_update aid chunk st = st.
Proof.
  intros Hchunk. destruct st as [msgs loading err]. unfold chunk_update.
  cbn [ChatState.messages ChatState.isLoading ChatState.error]. f_equal.
  rewrite <- (list_fmap_id msgs) at 2. apply list_fmap_ext. intros i m _.
  rewrite update_message_nothing by done. by case_bool_decide.
Qed.

Lemma process_events_unknown_id aid events st :
  (∀ m, m ∈ ChatState.messages st → Message.id m ≠ aid) →
  process_events aid events st = st.
Proof.
  intros Hfresh.
  pose proof (process_events_messages aid events st) as Hmsgs.
  destruct (process_events_flags aid events st) as [Hloading Herr].
  destruct (process_events aid events st) as [msgs' loading' err'], st as [msgs loading err].
  cbn [ChatState.messages ChatState.isLoading ChatState.error] in *. subst. f_equal.
  rewrite <- (list_fmap_id msgs) at 2. apply list_fmap_ext. intros i m Hm.
  rewrite bool_decide_eq_false_2; [done|]. apply Hfresh. by eapply list_elem_of_lookup_2.
Qed.

(** X6: the chunk updates of a sequence of events keep the number and the
    order of the messages, their ids, roles and timestamps, and the flags
    [isLoading] and [error]; a message with another id than the
    assistant's is unchanged, and the content of a message only grows. *)
Theorem chunk_updates_touch_only_the_assistant
    (assistantMsgId : jstring) (events : list StreamChunk.t) (st : ChatState.t) :
  let st' := process_events assistantMsgId events st in
  length (ChatState.messages st') = length (ChatState.messages st)
  ∧ ChatState.isLoading st' = ChatState.isLoading st
  ∧ ChatState.error st' = ChatState.error st
  ∧ ∀ i m, ChatState.messages st !! i = Some m →
      ∃ m', ChatState.messages st' !! i = Some m'
        ∧ Message.id m' = Message.id m
        ∧ Message.role m' = Message.role m
        ∧ Message.timestamp m' = Message.timestamp m
        ∧ Message.content m `prefix_of` Message.content m'
        ∧ (Message.id m ≠ assistantMsgId → m' = m).
Proof.
  cbv zeta. destruct (process_events_flags assistantMsgId events st) as [-> ->].
  rewrite process_events_messages, length_fmap. split_and!; try done.
  intros i m Hm. rewrite list_lookup_fmap, Hm. cbn [fmap option_fmap option_map].
  eexists. split; [done|]. case_bool_decide as Hid.
  - rewrite after_events_id, after_events_role, after_events_timestamp,
      after_events_content.
    split_and!; try done. by eexists.
  - done.
Qed.

(** X7: an event that carries neither sources nor answer text, such as an
    [{ error: ... }] event of the server, changes nothing in the chat
    state; on a stream of such events that ends normally the chat ends with
    an empty answer, [isLoading] false and [error] still null. *)
Theorem events_without_payload_are_ignored
    (net : network) (JSON_parse : jstring → result StreamChunk.t)
    (question : jstring) (fresh : Fresh.t) (json : result unit)
    (pieces : list jstring) (w : world ChatState.t) :
  (∀ aid chunk st, carries_nothing chunk → chunk_update aid chunk st = st)
  ∧ (¬ blank question →
     Forall carries_nothing (parsed_events JSON_parse (concat pieces)) →
     net_ask net (requests w) question
       = Resolves (Success json (Some (Stream pieces EndOfStream))) →
     ui (sendMessage net JSON_parse question fresh w).1
     = ChatState.Build
         (ChatState.messages (ui w)
            ++ [Message.Build (Fresh.userMsgId fresh) question user None
                  (Fresh.userTime fresh);
                Message.Build (Fresh.assistantMsgId fresh) [] assistant (Some [])
                  (Fresh.assistantTime fresh)])
         false None).
Proof.
  split; [intros aid chunk st; apply chunk_update_nothing|].
  intros Hq Hevents Hnet.
  destruct (sendMessage_stream net JSON_parse question fresh json _ w
              (not_blank_truthy _ Hq) Hnet) as [logged ->].
  cbn [fst ui ending reads].
  assert (Hsame : ∀ st,
    process_events (Fresh.assistantMsgId fresh)
      (parsed_events JSON_parse (concat pieces)) st = st).
  { unfold process_events.
    induction Hevents as [|chunk events Hchunk _ IH]; intros st; cbn; [done|].
    by rewrite chunk_update_nothing. }
  by rewrite Hsame.
Qed.

Lemma events_without_payload_are_ignored_witness :
  ui (sendMessage (sample_net (sample_stream [js "data: {}"; [LF]] EndOfStream))
        error_parse (js "Hello?") sample_fresh (empty_world sample_chat)).1
  = ChatState.Build
      [Message.Build (js "msg_1_a") (js "Hello?") user None 1;
       Message.Build (js "msg_1_b") [] assistant (Some []) 1]
      false None.
Proof.
  apply (proj2 (events_without_payload_are_ignored
                  (sample_net (sample_stream [js "data: {}"; [LF]] EndOfStream))
                  error_parse (js "Hello?") sample_fresh
                  (Throws (Error (js "not JSON"))) [js "data: {}"; [LF]]
                  (empty_world sample_chat))).
  - intros Hblank. apply trim_blank in Hblank. discriminate Hblank.
  - repeat constructor.
  - reflexivity.
Defined.

(** X8: once [clearMessages] has emptied the chat, the callbacks of a
    stream still under way do not bring anything back: the chunk updates
    and the completion leave the chat empty and idle; only a late error
    still sets [error]. *)
Theorem late_callbacks_after_clearMessages
    (JSON_parse : jstring → result StreamChunk.t) (assistantMsgId text : jstring)
    (e : exn) (w : world ChatState.t) :
  let chunks :=
    processLines JSON_parse text (λ chunk, setState (chunk_update assistantMsgId chunk)) in
  ui ((clearMessages >> chunks >> setState complete_update) w).1
  = ChatState.Build [] false None
  ∧ ui ((clearMessages >> chunks >> setState (error_update e)) w).1
    = ChatState.Build [] false (Some (error_message e)).
Proof.
  cbv zeta. unfold bind at 1 3. unfold clearMessages at 1 2. cbn [setState].
  unfold bind.
  edestruct (processLines_setState JSON_parse (chunk_update assistantMsgId) text)
    as [logged ->].
  cbn [ui setState fst].
  pose proof (process_events_unknown_id assistantMsgId
                (parsed_events JSON_parse text) (ChatState.Build [] false None))
    as Hsame.
  unfold process_events in Hsame. rewrite Hsame; [done|].
  intros m Hm. by apply elem_of_nil in Hm.
Qed.

(** ** [apiRequest] *)

Lemma request_error_value {T} (outcome : fetch_outcome T) :
  (∃ e, request_error outcome = Some e ∧ request_value outcome = None)
  ∨ (∃ v, request_error outcome = None ∧ request_value outcome = Some v).
Proof.
  destruct outcome as [e|[[v|e] body|status ed]]; cbn; eauto.
Qed.

Lemma apiRequest_outcome {S T} (endpoint : jstring) (req : request)
    (answer : list request → fetch_outcome T) (w : world S) :
  apiRequest endpoint req answer w
  = match answer (requests w) with
    | Resolves (Success (Returns v) _) =>
        (World (ui w) (console w) (requests w ++ [req]), Returns v)
    | outcome =>
        let e := default (Error []) (request_error outcome) in
        (World (ui w) (console w ++ [api_error_entry endpoint e])
           (requests w ++ [req]), Throws e)
    end.
Proof.
  unfold apiRequest, try_catch. unfold bind at 1. unfold fetch.
  by destruct (answer (requests w)) as [e|[[v|e] body|status ed]].
Qed.

(** X9: [apiRequest] sends one request and leaves the state alone.  It
    returns the parsed body of an ok response without logging; every
    failure (rejected [fetch], response not ok, unreadable JSON) is logged
    once as [API Error (<endpoint>):] and thrown on unchanged.  For a
    response that is not ok, what is thrown depends on the body: the
    [TypeError] of reading [detail] when the body is [null]; an [Error]
    with the text of the [detail] member when the body is an object with a
    truthy one (or the [TypeError] of the conversion when that text cannot
    be made); and [HTTP error! status: N] otherwise, also when the body is
    no JSON at all. *)
Theorem apiRequest_logs_and_rethrows {S T} (endpoint : jstring) (req : request)
    (answer : list request → fetch_outcome T) (w : world S) :
  let run := apiRequest endpoint req answer w in
  let failed e :=
    run.2 = Throws e ∧ console run.1 = console w ++ [api_error_entry endpoint e] in
  ui run.1 = ui w
  ∧ requests run.1 = requests w ++ [req]
  ∧ match answer (requests w) with
    | Rejects e => failed e
    | Resolves (Failure status errorData) =>
        let http := Error (js "HTTP error! status: " ++ of_number status) in
        match errorData with
        | Returns JSON.Null =>
            failed (Error (js "Cannot read properties of null (reading 'detail')"))
        | Returns (JSON.Object members) =>
            match JSON.member (js "detail") members with
            | Some detail =>
                if JSON.truthy detail then
                  match JSON.to_string detail with
                  | Returns message => failed (Error message)
                  | Throws e => failed e
                  end
                else failed http
            | None => failed http
            end
        | Returns _ | Throws _ => failed http
        end
    | Resolves (Success (Throws e) _) => failed e
    | Resolves (Success (Returns v) _) =>
        run.2 = Returns v ∧ console run.1 = console w
    end.
Proof.
  cbv zeta. rewrite apiRequest_outcome.
  destruct (answer (requests w)) as [e|[[v|e] body|status [value|e]]]; try done.
  destruct value as [|b|shown|text|items|members]; try done.
  cbn [request_error default]. unfold failure_error. cbn [JSON.get].
  destruct (JSON.member (js "detail") members) as [detail|]; [|done].
  destruct (JSON.truthy detail); [|done].
  by destruct (JSON.to_string detail).
Qed.

Example getDocuments_unprocessable :
  let validation :=
    JSON.Array [JSON.Object [(js "msg", JSON.String (js "field required"))];
                JSON.Object [(js "msg", JSON.String (js "field required"))]] in
  (getDocuments (documents_net (Resolves (Failure 422 (Returns (detail_body (js "Bad request"))))))
     (empty_world tt)).2
  = Throws (Error (js "Bad request"))
  ∧ (getDocuments
       (documents_net (Resolves (Failure 422
          (Returns (JSON.Object [(js "detail", validation)])))))
       (empty_world tt)).2
    = Throws (Error (js "[object Object],[object Object]"))
  ∧ (getDocuments (documents_net (Resolves (Failure 500 (Returns JSON.Null))))
       (empty_world tt)).2
    = Throws (TypeError (js "Cannot read properties of null (reading 'detail')")).
Proof. cbv zeta. split_and!; reflexivity. Qed.

(** ** [handleUpload]: the text tab and the end of every upload *)

Section TextUpload.
Import UploadState.
Variable net : network.
Variable onUploadSuccess : option (M UploadState.t unit).
Implicit Types w : world UploadState.t.


End TextUpload.



(** X11: with the file tab and no file selected, [handleUpload] sets the
    message [Please select at least one file to upload], sends no request
    and changes nothing else. *)
Theorem upload_without_files_is_refused
    (net : network) (onUploadSuccess : option (M UploadState.t unit))
    (w : world UploadState.t) :
  UploadState.activeTab (ui w) = file_tab →
  UploadState.files (ui w) = [] →
  handleUpload net onUploadSuccess w
  = (World
       (UploadState.Build file_tab (UploadState.text (ui w))
          (UploadState.source (ui w)) [] (UploadState.isUploading (ui w))
          (Some (error, js "Please select at least one file to upload"))
          (UploadState.fileInput (ui w)))
       (console w) (requests w),
     Returns tt).
Proof.
  intros Htab Hfiles.
  unfold handleUpload. unfold bind at 1. unfold getState. cbv beta iota zeta.
  rewrite Htab, Hfiles. cbn [length]. rewrite bool_decide_eq_true_2 by done.
  unfold setMessage, setState. by rewrite Htab, Hfiles.
Qed.

Lemma upload_without_files_is_refused_witness :
  handleUpload upload_net None (empty_world (files_form []))
  = (World
       (UploadState.Build file_tab [] [] [] false
          (Some (error, js "Please select at least one file to upload"))
          (Some (js "C:\fakepath\notes.txt")))
       [] [],
     Returns tt).
Proof.
  exact (upload_without_files_is_refused upload_net None (empty_world (files_form []))
           eq_refl eq_refl).
Defined.

(** X12: whatever the network answers and whatever the parent's callback
    does, [handleUpload] returns normally, and once the inputs have passed
    its check it ends with [isUploading] false. *)
Theorem handleUpload_always_settles
    (net : network) (onUploadSuccess : option (M UploadState.t unit))
    (w : world UploadState.t) :
  let st := ui w in
  let run := handleUpload net onUploadSuccess w in
  run.2 = Returns tt
  ∧ ((UploadState.activeTab st = text_tab
      ∧ ¬ blank (UploadState.text st) ∧ ¬ blank (UploadState.source st))
     ∨ (UploadState.activeTab st = file_tab ∧ UploadState.files st ≠ []) →
     UploadState.isUploading (ui run.1) = false).
Proof.
  cbv zeta.
  assert (Hsettle : ∀ (body : M UploadState.t unit) w0,
    let run :=
      try_finally
        (try_catch body
           (λ err,
              log (console_error [Text (js "Upload error:"); Thrown err]) >>
              setMessage (Some (error, error_message err))))
        (setIsUploading false) w0 in
    run.2 = Returns tt ∧ UploadState.isUploading (ui run.1) = false).
  { intros body w0. cbv zeta. unfold try_finally, try_catch.
    destruct (body w0) as [w1 [[]|e]]; cbn; done. }
  remember (handleUpload net onUploadSuccess w) as run eqn:Hrun.
  unfold handleUpload in Hrun. unfold bind at 1 in Hrun. unfold getState in Hrun.
  cbv beta iota zeta in Hrun.
  destruct (UploadState.activeTab (ui w)) eqn:Htab.
  - destruct (negb (truthy (trim (UploadState.text (ui w))))
              || negb (truthy (trim (UploadState.source (ui w))))) eqn:Hcheck.
    + subst run. split; [done|]. intros [(_ & Htext & Hsource)|[? _]]; [|done].
      apply not_blank_truthy in Htext. apply not_blank_truthy in Hsource.
      by rewrite Htext, Hsource in Hcheck.
    + unfold bind at 1 in Hrun. unfold setIsUploading at 1 in Hrun.
      cbn [setState] in Hrun.
      unfold bind at 1 in Hrun. unfold setMessage at 1 in Hrun.
      cbn [setState] in Hrun.
      match type of Hrun with
      | _ = try_finally (try_catch ?body _) _ ?w0 =>
          destruct (Hsettle body w0) as [Hreturns Hflag]
      end.
      subst run. split; [exact Hreturns|]. intros _. exact Hflag.
  - case_bool_decide as Hlen.
    + subst run. split; [done|]. intros [[? _]|[_ Hfiles]]; [done|].
      by destruct (UploadState.files (ui w)).
    + unfold bind at 1 in Hrun. unfold setIsUploading at 1 in Hrun.
      cbn [setState] in Hrun.
      unfold bind at 1 in Hrun. unfold setMessage at 1 in Hrun.
      cbn [setState] in Hrun.
      match type of Hrun with
      | _ = try_finally (try_catch ?body _) _ ?w0 =>
          destruct (Hsettle body w0) as [Hreturns Hflag]
      end.
      subst run. split; [exact Hreturns|]. intros _. exact Hflag.
Qed.

(** ** [fetchDocs]: every outcome *)

Section UniqueDocs.
Implicit Types (docs uniqueDocs : list DocumentInfo.t) (seenSources : gset jstring).

Lemma unique_docs_extends docs uniqueDocs seenSources :
  ∃ kept, unique_docs docs uniqueDocs seenSources = uniqueDocs ++ kept
          ∧ kept `sublist_of` docs.
Proof.
  revert uniqueDocs seenSources.
  induction docs as [|doc docs IH]; intros uniqueDocs seenSources; cbn [unique_docs].
  - exists []. by rewrite app_nil_r.
  - destruct (decide (DocumentInfo.source doc ∈ seenSources)).
    + destruct (IH uniqueDocs seenSources) as (kept & -> & Hsub).
      exists kept. split; [done|]. by apply sublist_cons.
    + destruct (IH (uniqueDocs ++ [doc]) (seenSources ∪ {[DocumentInfo.source doc]}))
        as (kept & -> & Hsub).
      exists (doc :: kept). rewrite <- app_assoc. split; [done|].
      by apply sublist_skip.
Qed.

Lemma unique_docs_distinct docs uniqueDocs seenSources :
  NoDup (DocumentInfo.source <$> docs) →
  (∀ s, s ∈ seenSources → s ∉ DocumentInfo.source <$> docs) →
  unique_docs docs uniqueDocs seenSources = uniqueDocs ++ docs.
Proof.
  revert uniqueDocs seenSources.
  induction docs as [|doc docs IH]; intros uniqueDocs seenSources Hnodup Hseen;
    cbn [unique_docs].
  - by rewrite app_nil_r.
  - rewrite fmap_cons in Hnodup. apply NoDup_cons in Hnodup as [Hdoc Hnodup].
    rewrite decide_False.
    + rewrite IH; [by rewrite <- app_assoc|done|].
      intros s Hs. apply elem_of_union in Hs as [Hs|Hs].
      * intros Hin. apply (Hseen s Hs). rewrite fmap_cons. by right.
      * apply elem_of_singleton in Hs as ->. done.
    + intros Hin. apply (Hseen _ Hin). rewrite fmap_cons. by left.
Qed.

End UniqueDocs.

(** X13: [fetchDocs] never throws and always sends one request.  When the
    request fails in any way, the list on display is left as it is and the
    failure is logged twice (by [apiRequest] and by [fetchDocs]). *)
Theorem fetchDocs_keeps_list_on_failure (net : network) (w : world AppState.t) :
  let run := fetchDocs net w in
  run.2 = Returns tt
  ∧ requests run.1 = requests w ++ [GetDocuments]
  ∧ ∀ e, request_error (net_documents net (requests w)) = Some e →
      ui run.1 = ui w
      ∧ console run.1
        = console w
            ++ [api_error_entry (js "/documents") e;
                console_error [Text (js "Failed to fetch documents:"); Thrown e]].
Proof.
  cbv zeta. unfold fetchDocs, try_catch, getDocuments. unfold bind.
  rewrite apiRequest_outcome.
  destruct (net_documents net (requests w)) as [e|[[data|e] body|status ed]];
    cbn; (split_and!; [done|done|]); intros e' [= <-]; by rewrite <- app_assoc.
Qed.

Example fetchDocs_offline :
  ui (fetchDocs (documents_net (Rejects (Error (js "Failed to fetch"))))
        (empty_world (AppState.Build chat_view (DocumentsResponse.documents sample_documents) None))).1
  = AppState.Build chat_view (DocumentsResponse.documents sample_documents) None.
Proof. reflexivity. Qed.

(** X14: the list [fetchDocs] displays is a sublist of the response: its
    entries are entries of the response, in the order of the response.  A
    response that already has one entry per source is displayed as it is,
    so that deduplicating the displayed list again changes nothing. *)
Theorem fetchDocs_lists_a_sublist
    (net : network) (data : DocumentsResponse.t) (body : option stream)
    (w : world AppState.t) :
  net_documents net (requests w) = Resolves (Success (Returns data) body) →
  let docs := DocumentsResponse.documents data in
  let listed := AppState.documents (ui (fetchDocs net w).1) in
  listed `sublist_of` docs
  ∧ length listed ≤ length docs
  ∧ (NoDup (DocumentInfo.source <$> docs) → listed = docs)
  ∧ unique_docs listed [] ∅ = listed.
Proof.
  intros Hnet. cbv zeta. rewrite (fetchDocs_success net data body w Hnet).
  cbn [fst ui AppState.documents].
  destruct (unique_docs_extends (DocumentsResponse.documents data) [] ∅)
    as (kept & Hkept & Hsub).
  cbn [app] in Hkept. rewrite Hkept.
  assert (Hdistinct : ∀ l, NoDup (DocumentInfo.source <$> l) → unique_docs l [] ∅ = l).
  { intros l Hl. rewrite unique_docs_distinct; [done|done|].
    intros s Hs. by apply elem_of_empty in Hs. }
  split_and!.
  - done.
  - by apply sublist_length.
  - intros Hnodup. rewrite <- Hkept. by apply Hdistinct.
  - apply Hdistinct. rewrite <- Hkept.
    apply (unique_docs_first_seen (DocumentsResponse.documents data) [] [] ∅).
    + apply first_seen_nil.
    + intros s. cbn. rewrite elem_of_empty, elem_of_nil. done.
Qed.

Lemma fetchDocs_lists_a_sublist_witness :
  let listed :=
    AppState.documents
      (ui (fetchDocs (documents_net (Resolves (Success (Returns sample_documents) None)))
             (empty_world sample_app)).1) in
  listed `sublist_of` DocumentsResponse.documents sample_documents
  ∧ length listed ≤ 3
  ∧ unique_docs listed [] ∅ = listed.
Proof.
  destruct (fetchDocs_lists_a_sublist
              (documents_net (Resolves (Success (Returns sample_documents) None)))
              sample_documents None (empty_world sample_app) eq_refl)
    as (Hsub & Hlen & _ & Hagain).
  split_and!; [exact Hsub|exact Hlen|exact Hagain].
Defined.

Lemma fetchDocs_outcome (net : network) (w : world AppState.t) :
  fetchDocs net w
  = (World (refreshed (net_documents net (requests w)) (ui w))
       (console w ++ refresh_log (net_documents net (requests w)))
       (requests w ++ [GetDocuments]),
     Returns tt).
Proof.
  unfold fetchDocs, try_catch, getDocuments. unfold bind.
  rewrite apiRequest_outcome. unfold refreshed, refresh_log.
  destruct (net_documents net (requests w)) as [e|[[data|e] body|status ed]];
    destruct w as [st logged sent];
    cbn [ui console requests request_value request_error default setDocuments
         setState log id];
    unfold log; cbn [ui console requests];
    by rewrite <- ?app_assoc, ?app_nil_r.
Qed.

(** ** [handleDelete] *)

Section HandleDeleteRuns.
Variable net : network.
Variable net_delete : list request → list jstring → jstring → fetch_outcome jstring.
Variable encodeURIComponent : jstring → result jstring.
Variable user_confirms : jstring → bool.
Implicit Types w : world AppPage.t.

Lemma handleDelete_cancelled source w :
  user_confirms (delete_question source) = false →
  handleDelete net net_delete encodeURIComponent user_confirms source w
  = (World (AppPage.Build (AppPage.app (ui w))
              (AppPage.dialogs (ui w) ++ [confirm_dialog (delete_question source) false])
              (AppPage.deleted (ui w)))
       (console w) (requests w),
     Returns tt).
Proof.
  intros Hanswer. unfold handleDelete. unfold bind at 1. unfold confirm.
  by rewrite Hanswer.
Qed.

Lemma handleDelete_confirmed source w :
  user_confirms (delete_question source) = true →
  handleDelete net net_delete encodeURIComponent user_confirms source w
  = let page := ui w in
    let st := AppPage.app page in
    let asked := AppPage.dialogs page ++ [confirm_dialog (delete_question source) true] in
    let idle s := AppState.Build (AppState.view s) (AppState.documents s) None in
    let deleting := AppState.Build (AppState.view st) (AppState.documents st) (Some source) in
    match encodeURIComponent source with
    | Throws e =>
        (World (AppPage.Build (idle st) (asked ++ [alert_dialog (js "Failed to delete document")])
                  (AppPage.deleted page))
           (console w ++ [console_error [Thrown e]]) (requests w), Returns tt)
    | Returns encoded =>
        let path := js "/documents/" ++ encoded in
        let outcome := net_delete (requests w) (AppPage.deleted page) path in
        match request_error outcome with
        | Some e =>
            (World (AppPage.Build (idle st)
                      (asked ++ [alert_dialog (js "Failed to delete document")])
                      (AppPage.deleted page ++ [path]))
               (console w ++ [console_error [Thrown e]]) (requests w), Returns tt)
        | None =>
            (World (AppPage.Build
                      (idle (refreshed (net_documents net (requests w)) deleting))
                      asked (AppPage.deleted page ++ [path]))
               (console w ++ refresh_log (net_documents net (requests w)))
               (requests w ++ [GetDocuments]), Returns tt)
        end
    end.
Proof.
  intros Hanswer. destruct w as [[st shown gone] logged sent]. cbv zeta.
  cbn [ui console requests AppPage.app AppPage.dialogs AppPage.deleted].
  unfold handleDelete. unfold bind at 1. unfold confirm. rewrite Hanswer.
  cbn [negb ui console requests AppPage.app AppPage.dialogs AppPage.deleted].
  unfold bind at 1. unfold setIsDeleting, setState, set_app.
  cbn [ui console requests AppPage.app AppPage.dialogs AppPage.deleted].
  unfold try_finally, try_catch. unfold bind at 1. unfold deleteDocument.
  unfold bind at 1. unfold of_result at 1.
  destruct (encodeURIComponent source) as [encoded|e].
  - unfold bind at 1. unfold fetch_delete.
    cbn [ui console requests AppPage.app AppPage.dialogs AppPage.deleted].
    destruct (net_delete sent gone (js "/documents/" ++ encoded))
      as [e|[[status|e] body|status ed]]; cbn [request_error];
      try (unfold bind, alert, log, setState, of_result, throw; by cbn).
    unfold of_result. cbv beta iota. unfold zoom.
    cbn [ui console requests AppPage.app AppPage.dialogs AppPage.deleted].
    rewrite fetchDocs_outcome.
    cbn [ui console requests AppPage.app AppPage.dialogs AppPage.deleted].
    done.
  - unfold bind, alert, log, setState. by cbn.
Qed.

End HandleDeleteRuns.

(** X15: when the user declines the [confirm] dialog, [handleDelete] does
    nothing else: no request of any kind, no change to the state of [App],
    nothing logged. *)
Theorem declined_delete_does_nothing
    (net : network)
    (net_delete : list request → list jstring → jstring → fetch_outcome jstring)
    (encodeURIComponent : jstring → result jstring) (user_confirms : jstring → bool)
    (source : jstring) (w : world AppPage.t) :
  user_confirms (delete_question source) = false →
  let run := handleDelete net net_delete encodeURIComponent user_confirms source w in
  run.2 = Returns tt
  ∧ AppPage.app (ui run.1) = AppPage.app (ui w)
  ∧ AppPage.deleted (ui run.1) = AppPage.deleted (ui w)
  ∧ requests run.1 = requests w
  ∧ console run.1 = console w
  ∧ AppPage.dialogs (ui run.1)
    = AppPage.dialogs (ui w) ++ [confirm_dialog (delete_question source) false].
Proof.
  intros Hanswer. cbv zeta.
  by rewrite (handleDelete_cancelled net net_delete encodeURIComponent
                user_confirms source w Hanswer).
Qed.

Lemma declined_delete_does_nothing_witness :
  let run :=
    handleDelete (documents_net (Resolves (Success (Returns after_delete_documents) None)))
      delete_ok sample_encode (λ _, false) (js "facts.txt") (empty_world sample_page) in
  run.2 = Returns tt
  ∧ AppPage.app (ui run.1) = AppPage.app sample_page
  ∧ AppPage.deleted (ui run.1) = []
  ∧ requests run.1 = []
  ∧ console run.1 = []
  ∧ AppPage.dialogs (ui run.1)
    = [] ++ [confirm_dialog (delete_question (js "facts.txt")) false].
Proof.
  exact (declined_delete_does_nothing
           (documents_net (Resolves (Success (Returns after_delete_documents) None)))
           delete_ok sample_encode (λ _, false) (js "facts.txt")
           (empty_world sample_page) eq_refl).
Defined.

(** X16: when the user confirms and the deletion fails (the source cannot
    be encoded, the request is rejected, the response is not ok or
    unreadable), [handleDelete] shows the alert [Failed to delete document],
    logs the error, does not refresh the list (no request for the
    documents, the list as before) and ends with [isDeleting] null.  The
    [DELETE] request has gone out unless the encoding failed. *)
Theorem failed_delete_alerts_and_keeps_list
    (net : network)
    (net_delete : list request → list jstring → jstring → fetch_outcome jstring)
    (encodeURIComponent : jstring → result jstring) (user_confirms : jstring → bool)
    (source : jstring) (e : exn) (w : world AppPage.t) :
  user_confirms (delete_question source) = true →
  delete_error (encodeURIComponent source)
    (net_delete (requests w) (AppPage.deleted (ui w))) = Some e →
  let st := AppPage.app (ui w) in
  let run := handleDelete net net_delete encodeURIComponent user_confirms source w in
  run.2 = Returns tt
  ∧ AppPage.app (ui run.1)
    = AppState.Build (AppState.view st) (AppState.documents st) None
  ∧ AppPage.dialogs (ui run.1)
    = AppPage.dialogs (ui w)
        ++ [confirm_dialog (delete_question source) true;
            alert_dialog (js "Failed to delete document")]
  ∧ console run.1 = console w ++ [console_error [Thrown e]]
  ∧ requests run.1 = requests w
  ∧ AppPage.deleted (ui run.1)
    = AppPage.deleted (ui w)
        ++ match encodeURIComponent source with
           | Returns encoded => [js "/documents/" ++ encoded]
           | Throws _ => []
           end.
Proof.
  intros Hanswer Herror. cbv zeta.
  rewrite (handleDelete_confirmed net net_delete encodeURIComponent
             user_confirms source w Hanswer). cbv zeta.
  unfold delete_error in Herror.
  destruct (encodeURIComponent source) as [encoded|e'].
  - rewrite Herror. cbn. by rewrite <- app_assoc.
  - injection Herror as ->. cbn. by rewrite <- app_assoc, app_nil_r.
Qed.

Lemma failed_delete_alerts_and_keeps_list_witness :
  let run :=
    handleDelete (documents_net (Resolves (Success (Returns after_delete_documents) None)))
      delete_refused sample_encode (λ _, true) (js "facts.txt") (empty_world sample_page) in
  AppPage.app (ui run.1) = AppPage.app sample_page
  ∧ AppPage.dialogs (ui run.1)
    = [confirm_dialog (delete_question (js "facts.txt")) true;
       alert_dialog (js "Failed to delete document")]
  ∧ console run.1 = [console_error [Thrown (Error (js "database is locked"))]]
  ∧ requests run.1 = []
  ∧ AppPage.deleted (ui run.1) = [js "/documents/facts.txt"].
Proof.
  destruct (failed_delete_alerts_and_keeps_list
              (documents_net (Resolves (Success (Returns after_delete_documents) None)))
              delete_refused sample_encode (λ _, true) (js "facts.txt")
              (Error (js "database is locked")) (empty_world sample_page)
              eq_refl eq_refl)
    as (_ & Happ & Hdialogs & Hconsole & Hrequests & Hdeleted).
  split_and!; [exact Happ|exact Hdialogs|exact Hconsole|exact Hrequests|exact Hdeleted].
Defined.

(** X17: when the user confirms and the deletion succeeds, [handleDelete]
    has sent [DELETE /documents/<encoded source>] and then asks for the
    documents once.  The list becomes the deduplicated list of that answer;
    when that second request fails the list stays as it was, the deleted
    source included, and no alert is shown.  [isDeleting] ends null. *)
Theorem confirmed_delete_refreshes_list
    (net : network)
    (net_delete : list request → list jstring → jstring → fetch_outcome jstring)
    (encodeURIComponent : jstring → result jstring) (user_confirms : jstring → bool)
    (source encoded : jstring) (w : world AppPage.t) :
  user_confirms (delete_question source) = true →
  encodeURIComponent source = Returns encoded →
  request_error (net_delete (requests w) (AppPage.deleted (ui w))
                   (js "/documents/" ++ encoded)) = None →
  let st := AppPage.app (ui w) in
  let run := handleDelete net net_delete encodeURIComponent user_confirms source w in
  run.2 = Returns tt
  ∧ AppPage.deleted (ui run.1) = AppPage.deleted (ui w) ++ [js "/documents/" ++ encoded]
  ∧ requests run.1 = requests w ++ [GetDocuments]
  ∧ AppPage.dialogs (ui run.1)
    = AppPage.dialogs (ui w) ++ [confirm_dialog (delete_question source) true]
  ∧ AppState.isDeleting (AppPage.app (ui run.1)) = None
  ∧ AppState.view (AppPage.app (ui run.1)) = AppState.view st
  ∧ AppState.documents (AppPage.app (ui run.1))
    = match request_value (net_documents net (requests w)) with
      | Some data => unique_docs (DocumentsResponse.documents data) [] ∅
      | None => AppState.documents st
      end.
Proof.
  intros Hanswer Hencoded Hdeleted. cbv zeta.
  rewrite (handleDelete_confirmed net net_delete encodeURIComponent
             user_confirms source w Hanswer). cbv zeta.
  rewrite Hencoded, Hdeleted. cbn [fst snd ui requests AppPage.app AppPage.dialogs
    AppPage.deleted AppState.isDeleting AppState.view AppState.documents].
  unfold refreshed.
  by destruct (request_value (net_documents net (requests w))).
Qed.

Lemma confirmed_delete_refreshes_list_witness :
  let run :=
    handleDelete (documents_net (Resolves (Success (Returns after_delete_documents) None)))
      delete_ok sample_encode (λ _, true) (js "facts.txt") (empty_world sample_page) in
  AppPage.deleted (ui run.1) = [js "/documents/facts.txt"]
  ∧ requests run.1 = [GetDocuments]
  ∧ AppState.documents (AppPage.app (ui run.1))
    = [DocumentInfo.Build 2 (js "notes.txt") (js "hi")].
Proof.
  destruct (confirmed_delete_refreshes_list
              (documents_net (Resolves (Success (Returns after_delete_documents) None)))
              delete_ok sample_encode (λ _, true) (js "facts.txt") (js "facts.txt")
              (empty_world sample_page) eq_refl eq_refl eq_refl)
    as (_ & Hdeleted & Hrequests & _ & _ & _ & Hdocs).
  split_and!; [exact Hdeleted|exact Hrequests|exact Hdocs].
Defined.

(** ** [MessageInput] and the upload button *)

Section ChatInput.
Variable net : network.
Variable JSON_parse : jstring → result StreamChunk.t.
Variable fresh : Fresh.t.
Implicit Types w : world ChatPage.t.

Lemma Chat_handleSend_idle w :
  truthy (trim (ChatPage.input (ui w))) && negb (ChatState.isLoading (ChatPage.chat (ui w)))
  = false →
  Chat_handleSend net JSON_parse fresh w = (w, Returns tt).
Proof.
  intros Hguard. unfold Chat_handleSend. unfold bind at 1. unfold getState.
  unfold handleSend. unfold bind at 1. unfold getState. by rewrite Hguard.
Qed.

Lemma Chat_handleSend_sends w :
  truthy (trim (ChatPage.input (ui w))) = true →
  ChatState.isLoading (ChatPage.chat (ui w)) = false →
  ∃ st logged,
    sendMessage net JSON_parse (ChatPage.input (ui w)) fresh
      (World (ChatPage.chat (ui w)) (console w) (requests w))
    = (World st logged (requests w ++ [PostAsk (ChatPage.input (ui w))]), Returns tt)
    ∧ Chat_handleSend net JSON_parse fresh w
      = (World (ChatPage.Build st []) logged
           (requests w ++ [PostAsk (ChatPage.input (ui w))]), Returns tt).
Proof.
  intros Hinput Hloading.
  destruct (sendMessage_settles net JSON_parse (ChatPage.input (ui w)) fresh
              (World (ChatPage.chat (ui w)) (console w) (requests w)) Hinput)
    as (st & logged & Hrun & _).
  exists st, logged. split; [exact Hrun|].
  unfold Chat_handleSend. unfold bind at 1. unfold getState.
  unfold handleSend. unfold bind at 1. unfold getState.
  rewrite Hinput, Hloading. cbn [negb andb].
  unfold bind, Chat_onSend, zoom. rewrite Hrun. by cbn.
Qed.

End ChatInput.

(** X18: in [Chat], sending from the input box does nothing at all while a
    response is loading or when the input is blank: no request, no message,
    the input kept.  Otherwise the input goes to [sendMessage] as typed,
    exactly one request is sent, and the input box is emptied.  The Enter
    key without Shift does the same and prevents the default; any other key
    and Shift+Enter do nothing. *)
Theorem Chat_input_sends_once_when_idle
    (net : network) (JSON_parse : jstring → result StreamChunk.t) (fresh : Fresh.t)
    (w : world ChatPage.t) :
  let page := ui w in
  let run := Chat_handleSend net JSON_parse fresh w in
  (blank (ChatPage.input page) ∨ ChatState.isLoading (ChatPage.chat page) = true →
   run = (w, Returns tt))
  ∧ (¬ blank (ChatPage.input page) →
     ChatState.isLoading (ChatPage.chat page) = false →
     let sent :=
       sendMessage net JSON_parse (ChatPage.input page) fresh
         (World (ChatPage.chat page) (console w) (requests w)) in
     run = (World (ChatPage.Build (ui sent.1) []) (console sent.1) (requests sent.1),
            Returns tt)
     ∧ requests run.1 = requests w ++ [PostAsk (ChatPage.input page)])
  ∧ (∀ key shiftKey,
       let pressed := Chat_handleKeyDown net JSON_parse fresh key shiftKey w in
       if bool_decide (key = js "Enter") && negb shiftKey
       then pressed = (run.1, Returns true)
       else pressed = (w, Returns false)).
Proof.
  cbv zeta.
  assert (Hreturns : (Chat_handleSend net JSON_parse fresh w).2 = Returns tt).
  { destruct (truthy (trim (ChatPage.input (ui w)))
              && negb (ChatState.isLoading (ChatPage.chat (ui w)))) eqn:Hguard.
    - apply andb_prop in Hguard as [Hinput Hloading].
      apply negb_true_iff in Hloading.
      by destruct (Chat_handleSend_sends net JSON_parse fresh w Hinput Hloading)
        as (st & logged & _ & ->).
    - by rewrite Chat_handleSend_idle. }
  split_and!.
  - intros Hidle. apply Chat_handleSend_idle.
    destruct Hidle as [Hblank| ->]; [|apply andb_false_r].
    apply trim_blank in Hblank. by rewrite Hblank.
  - intros Hinput Hloading. apply not_blank_truthy in Hinput.
    destruct (Chat_handleSend_sends net JSON_parse fresh w Hinput Hloading)
      as (st & logged & -> & ->).
    done.
  - intros key shiftKey.
    unfold Chat_handleKeyDown. unfold bind at 1. unfold getState. unfold handleKeyDown.
    destruct (bool_decide (key = js "Enter") && negb shiftKey); [|done].
    fold (Chat_handleSend net JSON_parse fresh) in Hreturns.
    unfold bind.
    change (handleSend (Chat_onSend net JSON_parse fresh)
              (ChatState.isLoading (ChatPage.chat (ui w))) w)
      with (Chat_handleSend net JSON_parse fresh w).
    destruct (Chat_handleSend net JSON_parse fresh w) as [w' r].
    cbn in Hreturns. by subst.
Qed.

Example Chat_input_while_loading :
  Chat_handleSend (sample_net (sample_stream sample_pieces EndOfStream)) sample_parse
    sample_fresh (empty_world (ChatPage.Build (ChatState.Build [] true None) (js "Hello?")))
  = (empty_world (ChatPage.Build (ChatState.Build [] true None) (js "Hello?")), Returns tt).
Proof. reflexivity. Qed.

(** X19: the upload button is disabled exactly while an upload is under
    way, on the text tab with a blank text, and on the file tab with no
    file; a click then does nothing.  A click on the enabled button runs
    [handleUpload] with at least one file on the file tab and a text that
    is not blank on the text tab, so that the only check that can still
    fail is the one on the source name: the message about text and source
    name is set and no request is sent. *)
Theorem upload_button_guards_handleUpload
    (net : network) (onUploadSuccess : option (M UploadState.t unit))
    (w : world UploadState.t) :
  let st := ui w in
  let run := click_upload net onUploadSuccess w in
  (upload_disabled st = true
   ↔ UploadState.isUploading st = true
     ∨ (UploadState.activeTab st = text_tab ∧ blank (UploadState.text st))
     ∨ (UploadState.activeTab st = file_tab ∧ UploadState.files st = []))
  ∧ (upload_disabled st = true → run = (w, Returns tt))
  ∧ (upload_disabled st = false →
     run = handleUpload net onUploadSuccess w
     ∧ (UploadState.activeTab st = file_tab → UploadState.files st ≠ [])
     ∧ (UploadState.activeTab st = text_tab → ¬ blank (UploadState.text st))
     ∧ (UploadState.activeTab st = text_tab → blank (UploadState.source st) →
        UploadState.message (ui run.1)
        = Some (error, js "Please provide both text and source name")
        ∧ requests run.1 = requests w)).
Proof.
  cbv zeta.
  assert (Hspec : upload_disabled (ui w) = true
    ↔ UploadState.isUploading (ui w) = true
      ∨ (UploadState.activeTab (ui w) = text_tab ∧ blank (UploadState.text (ui w)))
      ∨ (UploadState.activeTab (ui w) = file_tab ∧ UploadState.files (ui w) = [])).
  { unfold upload_disabled. rewrite !orb_true_iff, !andb_true_iff, !bool_decide_eq_true.
    rewrite negb_true_iff, <- trim_blank.
    assert (Htruthy : ∀ s : jstring, truthy s = false ↔ s = []) by by intros [|??].
    rewrite Htruthy.
    assert (Hlen : ∀ l : list File.t, length l = 0 ↔ l = []) by by intros [|??].
    rewrite Hlen. tauto. }
  split; [exact Hspec|].
  assert (Hclick : click_upload net onUploadSuccess w
                   = if upload_disabled (ui w) then (w, Returns tt)
                     else handleUpload net onUploadSuccess w).
  { unfold click_upload. unfold bind at 1. unfold getState.
    by destruct (upload_disabled (ui w)). }
  rewrite Hclick.
  destruct (upload_disabled (ui w)) eqn:Hdisabled; (split; [done|]); [done|].
  intros _.
  assert (Henabled : ¬ (UploadState.isUploading (ui w) = true
      ∨ (UploadState.activeTab (ui w) = text_tab ∧ blank (UploadState.text (ui w)))
      ∨ (UploadState.activeTab (ui w) = file_tab ∧ UploadState.files (ui w) = []))).
  { intros H. apply Hspec in H. congruence. }
  split_and!.
  - done.
  - intros Htab Hfiles. apply Henabled. right. right. done.
  - intros Htab Htext. apply Henabled. right. left. done.
  - intros Htab Hsource.
    by rewrite (handleUpload_blank_text net onUploadSuccess w Htab (or_intror Hsource)).
Qed.

Example click_while_uploading :
  click_upload upload_net None
    (empty_world (UploadState.Build file_tab [] [] [notes_txt] true None None))
  = (empty_world (UploadState.Build file_tab [] [] [notes_txt] true None None), Returns tt).
Proof. reflexivity. Qed.

(** ** [formatMessage] *)

Example formatMessage_sample :
  formatMessage (js "Say **hi** now" ++ [LF] ++ js "2 * 3 ** 4")
  = [Div.Build 0 (js "mb-2")
       [text_part (js "Say ");
        strong_part (js "0-1") (js "font-extrabold") (js "hi");
        text_part (js " now")];
     Div.Build 1 (js "") [text_part (js "2 * 3 ** 4")]].
Proof. vm_compute. reflexivity. Qed.

Example split_bold_empty_bold : split_bold (js "*****") = [js ""; js "****"; js "*"].
Proof. reflexivity. Qed.

Example formatMessage_lone_stars :
  formatMessage (js "***")
  = [Div.Build 0 (js "") [strong_part (js "0-0") (js "font-extrabold") (js "")]].
Proof. vm_compute. reflexivity. Qed.

Section SplitBold.
Implicit Types (s piece inner rest matched : jstring).

Lemma after_stars_Some s rest : after_stars s = Some rest ↔ s = STARS ++ rest.
Proof.
  unfold after_stars. destruct s as [|a [|b s]]; [done|done|].
  destruct (N.eqb_spec a 42) as [->|Ha], (N.eqb_spec b 42) as [->|Hb]; cbn;
    split; intros [= ?]; by subst.
Qed.

Lemma after_stars_no_star c s : c ≠ 42%N → after_stars (c :: s) = None.
Proof.
  intros Hc. destruct s as [|b s]; [done|]. cbn.
  destruct (N.eqb_spec c 42); [done|]. done.
Qed.

Lemma lazy_closing_spec s inner rest :
  lazy_closing s = Some (inner, rest) →
  s = inner ++ STARS ++ rest ∧ Forall (λ c, is_line_terminator c = false) inner.
Proof.
  revert inner. induction s as [|c s IH]; intros inner; cbn [lazy_closing].
  - done.
  - destruct (after_stars (c :: s)) as [rest'|] eqn:Hstars.
    + intros [= <- <-]. apply after_stars_Some in Hstars. by split.
    + destruct (is_line_terminator c) eqn:Hc; [done|].
      destruct (lazy_closing s) as [[inner' rest']|]; [|done].
      intros [= <- <-]. destruct (IH inner' eq_refl) as [-> Hinner].
      split; [done|]. by constructor.
Qed.

Lemma match_bold_spec s matched rest :
  match_bold s = Some (matched, rest) →
  ∃ inner, matched = STARS ++ inner ++ STARS ∧ s = matched ++ rest
           ∧ Forall (λ c, is_line_terminator c = false) inner.
Proof.
  unfold match_bold. destruct (after_stars s) as [opened|] eqn:Hstars; [|done].
  destruct (lazy_closing opened) as [[inner rest']|] eqn:Hclosing; [|done].
  intros [= <- <-]. apply after_stars_Some in Hstars as ->.
  apply lazy_closing_spec in Hclosing as [-> Hinner].
  exists inner. split_and!; [done| |done].
  cbn [app]. rewrite <- (app_assoc inner). reflexivity.
Qed.

Lemma match_bold_shorter s matched rest :
  match_bold s = Some (matched, rest) → length rest < length s.
Proof.
  intros Hmatch. apply match_bold_spec in Hmatch as (inner & -> & -> & _).
  rewrite !length_app. cbn. lia.
Qed.

(** Fuel above the length of the text is never used up. *)
Lemma split_bold_from_fuel fuel fuel' s piece :
  length s < fuel → length s < fuel' →
  split_bold_from fuel s piece = split_bold_from fuel' s piece.
Proof.
  revert fuel' s piece. induction fuel as [|fuel IH]; intros fuel' s piece Hf Hf';
    [lia|].
  destruct fuel' as [|fuel']; [lia|]. cbn [split_bold_from].
  destruct s as [|c s]; [done|].
  destruct (match_bold (c :: s)) as [[matched rest]|] eqn:Hmatch.
  - apply match_bold_shorter in Hmatch. cbn in *.
    do 2 f_equal. apply IH; lia.
  - cbn in *. apply IH; lia.
Qed.

Lemma split_bold_from_concat fuel s piece :
  concat (split_bold_from fuel s piece) = piece ++ s.
Proof.
  revert s piece. induction fuel as [|fuel IH]; intros s piece; cbn [split_bold_from].
  - cbn. by rewrite app_nil_r.
  - destruct s as [|c s]; [cbn; by rewrite !app_nil_r|].
    destruct (match_bold (c :: s)) as [[matched rest]|] eqn:Hmatch.
    + apply match_bold_spec in Hmatch as (inner & _ & -> & _).
      cbn. by rewrite IH.
    + rewrite IH. by rewrite <- app_assoc.
Qed.

Lemma split_bold_from_odd fuel s piece i matched :
  split_bold_from fuel s piece !! (2 * i + 1) = Some matched →
  ∃ inner, matched = STARS ++ inner ++ STARS
           ∧ Forall (λ c, is_line_terminator c = false) inner.
Proof.
  revert s piece i. induction fuel as [|fuel IH]; intros s piece i;
    cbn [split_bold_from].
  - replace (2 * i + 1) with (S (2 * i)) by lia. done.
  - destruct s as [|c s].
    { replace (2 * i + 1) with (S (2 * i)) by lia. done. }
    destruct (match_bold (c :: s)) as [[matched' rest]|] eqn:Hmatch.
    + destruct i as [|i].
      * cbn. intros [= <-].
        apply match_bold_spec in Hmatch as (inner & -> & _ & Hinner). by exists inner.
      * replace (2 * S i + 1) with (S (S (2 * i + 1))) by lia. cbn. apply IH.
    + apply IH.
Qed.

Lemma split_bold_from_plain fuel s piece :
  (42%N : N) ∉ s → split_bold_from fuel s piece = [piece ++ s].
Proof.
  revert s piece. induction fuel as [|fuel IH]; intros s piece Hs; [done|].
  cbn [split_bold_from]. destruct s as [|c s]; [by rewrite app_nil_r|].
  apply not_elem_of_cons in Hs as [Hc Hs].
  unfold match_bold. rewrite after_stars_no_star by done.
  rewrite IH by done. by rewrite <- app_assoc.
Qed.

Lemma lazy_closing_found inner rest :
  (42%N : N) ∉ inner →
  Forall (λ c, is_line_terminator c = false) inner →
  lazy_closing (inner ++ STARS ++ rest) = Some (inner, rest).
Proof.
  intros Hstar Hinner. induction Hinner as [|c inner Hc _ IH].
  - reflexivity.
  - apply not_elem_of_cons in Hstar as [Hne Hstar].
    cbn [app lazy_closing]. rewrite after_stars_no_star by done.
    rewrite Hc. by rewrite IH.
Qed.

Lemma split_bold_from_marked fuel before inner after piece :
  (42%N : N) ∉ before →
  (42%N : N) ∉ inner →
  Forall (λ c, is_line_terminator c = false) inner →
  length (before ++ STARS ++ inner ++ STARS ++ after) < fuel →
  split_bold_from fuel (before ++ STARS ++ inner ++ STARS ++ after) piece
  = (piece ++ before) :: (STARS ++ inner ++ STARS) :: split_bold after.
Proof.
  intros Hbefore Hstar Hinner. revert fuel piece.
  induction before as [|c before IH]; intros fuel piece Hfuel.
  - destruct fuel as [|fuel]; [cbn in Hfuel; lia|].
    cbn [app split_bold_from]. change (42%N :: 42%N :: ?x) with (STARS ++ x).
    assert (Hmatch : match_bold (STARS ++ inner ++ STARS ++ after)
                     = Some (STARS ++ inner ++ STARS, after)).
    { unfold match_bold.
      rewrite (proj2 (after_stars_Some _ (inner ++ STARS ++ after)) eq_refl).
      by rewrite lazy_closing_found. }
    cbn [app STARS js] in Hmatch |- *. rewrite Hmatch.
    rewrite app_nil_r. do 2 f_equal.
    apply split_bold_from_fuel; [|lia].
    rewrite !length_app in Hfuel. cbn in Hfuel. lia.
  - apply not_elem_of_cons in Hbefore as [Hc Hbefore].
    destruct fuel as [|fuel]; [cbn in Hfuel; lia|].
    cbn [app split_bold_from]. unfold match_bold at 1.
    rewrite after_stars_no_star by done.
    rewrite IH; [by rewrite <- app_assoc|done|].
    change (S (length (before ++ STARS ++ inner ++ STARS ++ after)) < S fuel) in Hfuel.
    lia.
Qed.

End SplitBold.

Section FormatPart.
Implicit Types (part inner before after : jstring).

Lemma startsWith_no_star part : (42%N : N) ∉ part → startsWith part STARS = false.
Proof.
  change STARS with [42%N; 42%N]. destruct part as [|c part]; [done|].
  intros [Hc _]%not_elem_of_cons. cbn. by destruct (N.eqb_spec c 42).
Qed.

Lemma format_part_plain pIdx i part :
  (42%N : N) ∉ part → format_part pIdx i part = text_part part.
Proof. intros Hpart. unfold format_part. by rewrite startsWith_no_star. Qed.

Lemma slice_between_stars inner :
  slice (STARS ++ inner ++ STARS) 2 (Some (-2)%Z) = inner.
Proof.
  unfold slice, relative_index.
  change (2 <? 0)%Z with false. change (-2 <? 0)%Z with true. cbv beta iota zeta.
  assert (Hlen : Z.of_nat (length (STARS ++ inner ++ STARS))
                 = (Z.of_nat (length inner) + 4)%Z).
  { rewrite !length_app. change (length STARS) with 2. lia. }
  rewrite Hlen.
  replace (Z.min 2 (Z.of_nat (length inner) + 4)) with 2%Z by lia.
  replace (Z.max (Z.of_nat (length inner) + 4 + -2) 0 - 2)%Z
    with (Z.of_nat (length inner)) by lia.
  rewrite Nat2Z.id. change (Z.to_nat 2) with 2.
  change (drop 2 (STARS ++ inner ++ STARS)) with (inner ++ STARS).
  by rewrite take_app_length.
Qed.

Lemma format_part_bold pIdx i inner :
  format_part pIdx i (STARS ++ inner ++ STARS)
  = strong_part (of_number (N.of_nat pIdx) ++ js "-" ++ of_number (N.of_nat i))
      (js "font-extrabold") inner.
Proof.
  unfold format_part.
  assert (Hstart : ∀ s, startsWith (STARS ++ s) STARS = true).
  { intros s. change STARS with [42%N; 42%N]. cbn [app startsWith].
    change (42 =? 42)%N with true. by destruct s. }
  assert (Hend : endsWith (STARS ++ inner ++ STARS) STARS = true).
  { unfold endsWith. rewrite !reverse_app, <- app_assoc. apply Hstart. }
  by rewrite Hstart, Hend, slice_between_stars.
Qed.

End FormatPart.

Lemma elem_of_split_line (c : N) (line s : jstring) (sep : N) :
  line ∈ split s sep → c ∈ line → c ∈ s.
Proof.
  revert line. induction s as [|d s IH]; intros line; cbn [split].
  - by intros ->%list_elem_of_singleton.
  - destruct (d =? sep)%N.
    + intros [->|Hline]%elem_of_cons Hc; [by apply elem_of_nil in Hc|].
      right. by apply (IH line).
    + pose proof (split_nonempty s sep) as Hne.
      destruct (split s sep) as [|first lines]; [done|].
      intros [->|Hline]%elem_of_cons Hc.
      * apply elem_of_cons in Hc as [->|Hc]; [by left|].
        right. apply (IH first); [by left|done].
      * right. apply (IH line); [by right|done].
Qed.

(** X20: Text without any asterisk is only cut into lines: [formatMessage]
    returns one block per line of the text, whose single child is the line
    itself as plain text, unchanged. *)
Theorem formatMessage_plain_text (text : jstring) :
  text ≠ [] →
  (42%N : N) ∉ text →
  formatMessage text
  = imap (λ pIdx line,
            Div.Build pIdx
              (if (Z.of_nat pIdx <? Z.of_nat (length (split text LF)) - 1)%Z
               then js "mb-2" else js "")
              [text_part line])
         (split text LF).
Proof.
  intros Htext Hstar. unfold formatMessage.
  destruct text as [|c text]; [done|]. cbn [truthy negb].
  apply imap_ext. intros pIdx line Hline. f_equal.
  assert (Hplain : (42%N : N) ∉ line).
  { intros Hc. apply Hstar. eapply elem_of_split_line; [|done].
    by eapply list_elem_of_lookup_2. }
  unfold split_bold. rewrite split_bold_from_plain by done.
  cbn [imap app]. by rewrite format_part_plain.
Qed.

Lemma formatMessage_plain_text_witness :
  formatMessage (js "one" ++ [LF] ++ js "two")
  = [Div.Build 0 (js "mb-2") [text_part (js "one")];
     Div.Build 1 (js "") [text_part (js "two")]].
Proof.
  rewrite (formatMessage_plain_text (js "one" ++ [LF] ++ js "two"));
    [reflexivity|done|].
  apply (bool_decide_unpack _). vm_compute. exact I.
Defined.

(** X21: The pieces that [formatMessage] cuts a paragraph into lose
    nothing: put together again they are the paragraph. Every piece at an
    odd index is a captured segment, two asterisks, a text without line
    terminator, two asterisks, and it is rendered as a [strong] element
    holding that text without the asterisks. The fuel of the model is never
    used up. *)
Theorem split_bold_pieces (paragraph : jstring) :
  concat (split_bold paragraph) = paragraph
  ∧ (∀ i matched, split_bold paragraph !! (2 * i + 1) = Some matched →
       ∃ inner, matched = STARS ++ inner ++ STARS
                ∧ Forall (λ c, is_line_terminator c = false) inner
                ∧ ∀ pIdx, format_part pIdx (2 * i + 1) matched
                          = strong_part
                              (of_number (N.of_nat pIdx) ++ js "-"
                               ++ of_number (N.of_nat (2 * i + 1)))
                              (js "font-extrabold") inner)
  ∧ (∀ fuel, length paragraph < fuel →
       split_bold_from fuel paragraph [] = split_bold paragraph).
Proof.
  split_and!.
  - unfold split_bold. by rewrite split_bold_from_concat.
  - intros i matched Hpiece.
    apply split_bold_from_odd in Hpiece as (inner & -> & Hinner).
    exists inner. split_and!; [done|done|].
    intros pIdx. apply format_part_bold.
  - intros fuel Hfuel. apply split_bold_from_fuel; [done|lia].
Qed.

(** X22: A paragraph of the shape [before **inner** after], where [before]
    and [inner] hold no asterisk and [inner] no line terminator, is rendered
    as the plain text [before], then [inner] in a [strong] element keyed
    [pIdx-1], then the rendering of [after]. *)
Theorem formatMessage_marked_segment (pIdx : nat) (before inner after : jstring) :
  (42%N : N) ∉ before →
  (42%N : N) ∉ inner →
  Forall (λ c, is_line_terminator c = false) inner →
  imap (format_part pIdx) (split_bold (before ++ STARS ++ inner ++ STARS ++ after))
  = text_part before
    :: strong_part (of_number (N.of_nat pIdx) ++ js "-1") (js "font-extrabold") inner
    :: imap (λ i, format_part pIdx (2 + i)) (split_bold after).
Proof.
  intros Hbefore Hstar Hinner. unfold split_bold at 1.
  rewrite split_bold_from_marked by (done || lia).
  rewrite app_nil_l. cbn [imap]. rewrite format_part_plain by done.
  unfold compose at 1. rewrite format_part_bold. reflexivity.
Qed.

Lemma formatMessage_marked_segment_witness :
  imap (format_part 0) (split_bold (js "Say **hi** now"))
  = [text_part (js "Say "); strong_part (js "0-1") (js "font-extrabold") (js "hi");
     text_part (js " now")].
Proof.
  change (js "Say **hi** now")
    with (js "Say " ++ STARS ++ js "hi" ++ STARS ++ js " now").
  rewrite (formatMessage_marked_segment 0 (js "Say ") (js "hi") (js " now"));
    [reflexivity| | |].
  - apply (bool_decide_unpack _). vm_compute. exact I.
  - apply (bool_decide_unpack _). vm_compute. exact I.
  - by repeat constructor.
Defined.

(** X23: [formatMessage] returns nothing for the empty text and otherwise
    one block per line of the text; the blocks are keyed by their line
    index, and every block but the last carries the class [mb-2]. *)
Theorem formatMessage_one_block_per_line (text : jstring) :
  text ≠ [] →
  let blocks := formatMessage text in
  let n := length (split text LF) in
  formatMessage [] = []
  ∧ 0 < n
  ∧ Div.key <$> blocks = seq 0 n
  ∧ Div.className <$> blocks = replicate (n - 1) (js "mb-2") ++ [js ""].
Proof.
  intros Htext blocks n. subst blocks.
  assert (Hn : 0 < n).
  { subst n. pose proof (split_nonempty text LF).
    destruct (split text LF); [done|cbn; lia]. }
  assert (Htruthy : truthy text = true) by by destruct text.
  split_and!; [done|done| |].
  - unfold formatMessage. rewrite Htruthy. cbn [negb].
    apply list_eq. intros i. rewrite list_lookup_fmap, list_lookup_imap.
    fold n. destruct (split text LF !! i) as [line|] eqn:Hline; cbn.
    + apply lookup_lt_Some in Hline. fold n in Hline.
      symmetry. by apply lookup_seq.
    + apply lookup_ge_None in Hline. fold n in Hline.
      symmetry. apply lookup_ge_None. rewrite length_seq. lia.
  - unfold formatMessage. rewrite Htruthy. cbn [negb].
    apply list_eq. intros i. rewrite list_lookup_fmap, list_lookup_imap.
    fold n. destruct (split text LF !! i) as [line|] eqn:Hline; cbn.
    + apply lookup_lt_Some in Hline. fold n in Hline.
      destruct (Z.ltb_spec (Z.of_nat i) (Z.of_nat n - 1)) as [Hi|Hi].
      * rewrite lookup_app_l by (rewrite length_replicate; lia).
        symmetry. apply lookup_replicate_2. lia.
      * rewrite lookup_app_r by (rewrite length_replicate; lia).
        rewrite length_replicate. by replace (i - (n - 1)) with 0 by lia.
    + apply lookup_ge_None in Hline. fold n in Hline.
      symmetry. apply lookup_ge_None.
      rewrite length_app, length_replicate. cbn. lia.
Qed.

Lemma formatMessage_one_block_per_line_witness :
  Div.className <$> formatMessage (js "one" ++ [LF] ++ js "two")
  = [js "mb-2"; js ""].
Proof.
  by destruct (formatMessage_one_block_per_line (js "one" ++ [LF] ++ js "two"))
    as (_ & _ & _ & ->).
Defined.
